(** * Audit scanner: a shallow embedding of the scanner and of the report store

    The development follows the two Go packages it verifies:

    - [internal/report/store.go]: the in-memory cache of policy reports and
      [Save], the create-or-update cycle against the API server;
    - [internal/scanner/scanner.go]: [policyMatches],
      [sendAdmissionReviewToPolicyServer], [auditResource],
      [auditClusterResource], [ScanNamespace], [ScanAllNamespaces] and
      [ScanClusterWideResources].

    Go [error] values are a small inductive type, a [nil] error is [None].
    A run-time panic (a nil pointer dereference) is an explicit outcome.
    Effects of the scanner (log calls, HTTP requests, reports handed to the
    store) are collected in a trace; the answers of the collaborators are
    fields of an environment record. *)

From Stdlib Require Import ZArith.
From stdpp Require Import base option list strings pretty gmap fin_maps.

Set Warnings "-clear-no-such-hyp".

Local Open Scope Z_scope.

(** ** Go errors *)

(** [metav1.StatusReason], as far as the code distinguishes it. *)
Inductive StatusReason :=
| StatusReasonNotFound
| StatusReasonConflict
| StatusReasonUnknown.

(** The error values the code builds or inspects. *)
#[warnings="-register-all"]
Inductive error :=
| ErrMsg (msg : string)
    (* errors.New, or fmt.Errorf without a wrapped error *)
| ErrWrap (msg : string) (inner : error)
    (* fmt.Errorf("msg: %w", inner) *)
| ErrStatus (reason : StatusReason) (msg : string)
    (* a *StatusError of k8s.io/apimachinery/pkg/api/errors *)
| ErrJoin (errs : list error).
    (* errors.Join: the non-nil errors, in argument order *)

(** [errors.Join]: nil arguments are discarded, and the result is nil when
    nothing is left. *)
Definition errors_Join (errs : list (option error)) : option error :=
  match omap id errs with
  | [] => None
  | es => Some (ErrJoin es)
  end.

(** The errors a value stands for, once every [errors.Join] is opened. *)
Fixpoint joined (e : error) : list error :=
  match e with
  | ErrJoin es => concat (map joined es)
  | _ => [e]
  end.

(** [ReasonForError] looks through wrapped errors ([errors.As]). *)
Fixpoint ReasonForError (e : error) : StatusReason :=
  match e with
  | ErrStatus r _ => r
  | ErrWrap _ inner => ReasonForError inner
  | _ => StatusReasonUnknown
  end.

Definition reason_is (r : StatusReason) (e : option error) : bool :=
  match e with
  | None => false
  | Some e' =>
      match ReasonForError e', r with
      | StatusReasonNotFound, StatusReasonNotFound => true
      | StatusReasonConflict, StatusReasonConflict => true
      | _, _ => false
      end
  end.

(** [errorMachinery.IsNotFound] and [errorMachinery.IsConflict]; both are
    false on a nil error. *)
Definition IsNotFound : option error -> bool := reason_is StatusReasonNotFound.
Definition IsConflict : option error -> bool := reason_is StatusReasonConflict.

(** ** Outcomes and traces *)

(** A call either returns or panics. *)
Inductive Outcome (A : Type) :=
| Returned (a : A)
| Panicked (msg : string).
Arguments Returned {A} a.
Arguments Panicked {A} msg.

Definition nil_dereference : string :=
  "invalid memory address or nil pointer dereference".

(** ** Kubernetes objects *)

Abbreviation bytes := (list Byte.byte).

(** An [unstructured.Unstructured] object: the accessors the code uses, and
    the rest of its content. *)
Record Unstructured := {
  u_Kind : string;
  u_Namespace : string;
  u_Name : string;
  u_Labels : gmap string string;
  u_Content : string;
}.

Definition GetLabels (u : Unstructured) : gmap string string := u_Labels u.

(** What the pager hands to its callback: a [runtime.Object], which is an
    [*unstructured.Unstructured] or something else. *)
Inductive RuntimeObject :=
| ObjUnstructured (u : Unstructured)
| ObjOther (kind : string).

(** [schema.GroupVersionResource] *)
Record GroupVersionResource := {
  gvr_Group : string;
  gvr_Version : string;
  gvr_Resource : string;
}.

(** [metav1.LabelSelectorRequirement]; the operator is a Go string. *)
Record LabelSelectorRequirement := {
  lsr_Key : string;
  lsr_Operator : string;
  lsr_Values : list string;
}.

(** [metav1.LabelSelector] *)
Record LabelSelector := {
  MatchLabels : gmap string string;
  MatchExpressions : list LabelSelectorRequirement;
}.

(** ** Label selectors (k8s.io/apimachinery/pkg/labels) *)

Module labels.

(** [selection.Operator], the operators a [LabelSelector] can produce. *)
Inductive Operator := OpEquals | OpIn | OpNotIn | OpExists | OpDoesNotExist.

Record Requirement := {
  key : string;
  operator : Operator;
  strValues : list string;
}.

(** A [labels.Selector] is [Nothing] or a list of requirements;
    [Everything] is the empty list. *)
Inductive Selector :=
| Nothing
| Internal (reqs : list Requirement).

Definition Everything : Selector := Internal [].

Definition hasValue (r : Requirement) (v : string) : bool :=
  bool_decide (v ∈ strValues r).

(** [Requirement.Matches] on a label set. *)
Definition RequirementMatches (r : Requirement) (ls : gmap string string) : bool :=
  match operator r with
  | OpEquals | OpIn =>
      match ls !! key r with
      | None => false
      | Some v => hasValue r v
      end
  | OpNotIn =>
      match ls !! key r with
      | None => true
      | Some v => negb (hasValue r v)
      end
  | OpExists => bool_decide (is_Some (ls !! key r))
  | OpDoesNotExist => negb (bool_decide (is_Some (ls !! key r)))
  end.

(** [Selector.Matches] *)
Definition Matches (s : Selector) (ls : gmap string string) : bool :=
  match s with
  | Nothing => false
  | Internal reqs => forallb (fun r => RequirementMatches r ls) reqs
  end.

(** The syntax checks of label keys and values, which the library runs on
    every requirement; they are parameters of the embedding. *)
Record Syntax := {
  validateLabelKey : string -> option error;
  validateLabelValue : string -> string -> option error;
}.

Fixpoint validateValues (syn : Syntax) (k : string) (vals : list string) : option error :=
  match vals with
  | [] => None
  | v :: vals' =>
      match validateLabelValue syn k v with
      | Some e => Some e
      | None => validateValues syn k vals'
      end
  end.

(** [labels.NewRequirement] *)
Definition NewRequirement (syn : Syntax) (k : string) (op : Operator)
    (vals : list string) : Requirement + error :=
  match validateLabelKey syn k with
  | Some e => inr e
  | None =>
      let arity : option error :=
        match op with
        | OpIn | OpNotIn =>
            if bool_decide (length vals = 0%nat)
            then Some (ErrMsg "for 'in', 'notin' operators, values set can't be empty")
            else None
        | OpEquals =>
            if bool_decide (length vals = 1%nat)
            then None
            else Some (ErrMsg "exact-match compatibility requires one single value")
        | OpExists | OpDoesNotExist =>
            if bool_decide (length vals = 0%nat)
            then None
            else Some (ErrMsg "values set must be empty for exists and does not exist")
        end in
      match arity with
      | Some e => inr e
      | None =>
          match validateValues syn k vals with
          | Some e => inr e
          | None => inl {| key := k; operator := op; strValues := vals |}
          end
      end
  end.

End labels.

Definition double_quote : string := String (Ascii.ascii_of_nat 34) EmptyString.

(** The switch of [LabelSelectorAsSelector] on [expr.Operator]. *)
Definition selectionOperator (op : string) : labels.Operator + error :=
  if bool_decide (op = "In") then inl labels.OpIn
  else if bool_decide (op = "NotIn") then inl labels.OpNotIn
  else if bool_decide (op = "Exists") then inl labels.OpExists
  else if bool_decide (op = "DoesNotExist") then inl labels.OpDoesNotExist
  else inr (ErrMsg (double_quote +:+ op +:+ double_quote
                    +:+ " is not a valid label selector operator")).

Fixpoint requirementsOfLabels (syn : labels.Syntax) (kvs : list (string * string))
    : list labels.Requirement + error :=
  match kvs with
  | [] => inl []
  | (k, v) :: kvs' =>
      match labels.NewRequirement syn k labels.OpEquals [v] with
      | inr e => inr e
      | inl r =>
          match requirementsOfLabels syn kvs' with
          | inr e => inr e
          | inl rs => inl (r :: rs)
          end
      end
  end.

Fixpoint requirementsOfExpressions (syn : labels.Syntax)
    (exprs : list LabelSelectorRequirement) : list labels.Requirement + error :=
  match exprs with
  | [] => inl []
  | expr :: exprs' =>
      match selectionOperator (lsr_Operator expr) with
      | inr e => inr e
      | inl op =>
          match labels.NewRequirement syn (lsr_Key expr) op (lsr_Values expr) with
          | inr e => inr e
          | inl r =>
              match requirementsOfExpressions syn exprs' with
              | inr e => inr e
              | inl rs => inl (r :: rs)
              end
          end
      end
  end.

(** [metav1.LabelSelectorAsSelector]. Go ranges over [MatchLabels] in an
    unspecified order; the embedding takes the order of [map_to_list]. *)
Definition LabelSelectorAsSelector (syn : labels.Syntax) (ps : option LabelSelector)
    : labels.Selector + error :=
  match ps with
  | None => inl labels.Nothing
  | Some sel =>
      if bool_decide (size (MatchLabels sel) + length (MatchExpressions sel) = 0)%nat
      then inl labels.Everything
      else
        match requirementsOfLabels syn (map_to_list (MatchLabels sel)) with
        | inr e => inr e
        | inl rs1 =>
            match requirementsOfExpressions syn (MatchExpressions sel) with
            | inr e => inr e
            | inl rs2 => inl (labels.Internal (rs1 ++ rs2))
            end
        end
  end.

(** ** Policies (kubewarden-controller, internal/policies) *)

Module policiesv1.

(** The [policiesv1.Policy] interface, through the two getters used. *)
Record Policy := {
  Name : string;
  ObjectSelector : option LabelSelector;
}.

Definition GetName (p : Policy) : string := Name p.
Definition GetObjectSelector (p : Policy) : option LabelSelector := ObjectSelector p.

End policiesv1.

Module policies.

(** [policies.Policy]: a policy and the URL of the policy server that
    evaluates it. *)
Record Policy := {
  Policy_ : policiesv1.Policy;
  PolicyServer : string;
}.

(** [policies.Policies]. [PoliciesByGVR] is a Go map that the scanner
    only ranges over; it is the list of its entries in the order of that
    iteration. *)
Record Policies := {
  PoliciesByGVR : list (GroupVersionResource * list Policy);
  PolicyNum : Z;
  SkippedNum : Z;
}.

End policies.

(** ** Admission reviews (k8s.io/api/admission/v1) *)

Record AdmissionRequest := {
  req_Name : string;
  req_Namespace : string;
  req_Operation : string;
  req_Object : Unstructured;
}.

Record AdmissionResponse := {
  resp_UID : string;
  resp_Allowed : bool;
  resp_Message : string;
}.

(** [Request] and [Response] are pointers: [None] is nil. *)
Record AdmissionReview := {
  Request : option AdmissionRequest;
  Response : option AdmissionResponse;
}.

(** Modelled from the spec: [newAdmissionReview] is not among the sources.
    The request embeds the resource content and names the operation that the
    audit simulates, the creation of the resource that exists. *)
Definition newAdmissionReview (resource : Unstructured) : AdmissionReview :=
  {| Request := Some {| req_Name := u_Name resource;
                        req_Namespace := u_Namespace resource;
                        req_Operation := "CREATE";
                        req_Object := resource |};
     Response := None |}.

(** ** Reports (internal/report) *)

(** One row of a report: the policy, the verdict and whether the evaluation
    failed. *)
Record PolicyReportResult := {
  res_Policy : string;
  res_Allowed : bool;
  res_Errored : bool;
  res_Message : string;
}.

(** A namespaced [PolicyReport]: the metadata the code reads and writes,
    and the results. *)
Record PolicyReport := {
  pr_Name : string;
  pr_Namespace : string;
  pr_ResourceVersion : string;
  pr_Results : list PolicyReportResult;
}.

Record ClusterPolicyReport := {
  cpr_Name : string;
  cpr_ResourceVersion : string;
  cpr_Results : list PolicyReportResult;
}.

(** The zero value [PolicyReport{}]. *)
Definition PolicyReport_zero : PolicyReport :=
  {| pr_Name := ""; pr_Namespace := ""; pr_ResourceVersion := ""; pr_Results := [] |}.

Definition GetNamespace (r : PolicyReport) : string := pr_Namespace r.
Definition GetResourceVersion (r : PolicyReport) : string := pr_ResourceVersion r.
Definition SetResourceVersion (r : PolicyReport) (v : string) : PolicyReport :=
  {| pr_Name := pr_Name r; pr_Namespace := pr_Namespace r;
     pr_ResourceVersion := v; pr_Results := pr_Results r |}.

(** Modelled from the spec: [NewPolicyReport] is not among the sources. A
    report is created fresh, without results, for the resource that is
    audited. *)
Definition NewPolicyReport (resource : Unstructured) : PolicyReport :=
  {| pr_Name := u_Name resource; pr_Namespace := u_Namespace resource;
     pr_ResourceVersion := ""; pr_Results := [] |}.

(** Modelled from the spec: [NewClusterPolicyReport] is not among the
    sources. The store calls it with a name, the scanner with the resource
    that is audited; the embedding takes the name. *)
Definition NewClusterPolicyReport (name : string) : ClusterPolicyReport :=
  {| cpr_Name := name; cpr_ResourceVersion := ""; cpr_Results := [] |}.

(** The row that the two [AddResultTo...] functions append. *)
Definition newResult (policy : policiesv1.Policy) (response : option AdmissionResponse)
    (errored : bool) : PolicyReportResult :=
  {| res_Policy := policiesv1.GetName policy;
     res_Allowed := from_option resp_Allowed false response;
     res_Errored := errored;
     res_Message := from_option resp_Message "" response |}.

(** Modelled from the spec: [AddResultToPolicyReport] is not among the
    sources. It appends one row, which refers to the policy and carries the
    verdict, to the report. *)
Definition AddResultToPolicyReport (r : PolicyReport) (policy : policiesv1.Policy)
    (response : option AdmissionResponse) (errored : bool) : PolicyReport :=
  {| pr_Name := pr_Name r; pr_Namespace := pr_Namespace r;
     pr_ResourceVersion := pr_ResourceVersion r;
     pr_Results := pr_Results r ++ [newResult policy response errored] |}.

(** Modelled from the spec: [AddResultToClusterPolicyReport] is not among
    the sources; it is the cluster-wide twin of [AddResultToPolicyReport]. *)
Definition AddResultToClusterPolicyReport (r : ClusterPolicyReport)
    (policy : policiesv1.Policy) (response : option AdmissionResponse)
    (errored : bool) : ClusterPolicyReport :=
  {| cpr_Name := cpr_Name r; cpr_ResourceVersion := cpr_ResourceVersion r;
     cpr_Results := cpr_Results r ++ [newResult policy response errored] |}.

(** ** The trace of a scan *)

Inductive Level := DebugLevel | InfoLevel | WarnLevel | ErrorLevel.

(** The fields of a log call; a [Dict] is flattened into its fields. *)
Inductive LogField :=
| FStr (k v : string)
| FInt (k : string) (v : Z)
| FBool (k : string) (v : bool)
| FErr (e : error).

Inductive Event :=
| EvLog (lvl : Level) (fields : list LogField) (msg : string)
    (* a log call that reached [Msg] *)
| EvPost (url : string) (payload : bytes)
    (* httpClient.Do with a POST request *)
| EvCreateOrPatchPolicyReport (r : PolicyReport)
    (* a report handed to the store *)
| EvCreateOrPatchClusterPolicyReport (r : ClusterPolicyReport).

(** A computation of the scanner: the events it emitted, and how it ended. *)
Definition M (A : Type) : Type := list Event * Outcome A.

#[global] Instance M_ret : MRet M := fun A a => ([], Returned a).

#[global] Instance M_bind : MBind M := fun A B f m =>
  match m with
  | (t1, Returned a) => let '(t2, o) := f a in (t1 ++ t2, o)
  | (t1, Panicked msg) => (t1, Panicked msg)
  end.

Definition emit (e : Event) : M unit := ([e], Returned tt).
Definition panic {A : Type} (msg : string) : M A := ([], Panicked msg).

(** Reading a field through a pointer. *)
Definition deref {A : Type} (p : option A) : M A :=
  match p with
  | Some a => mret a
  | None => panic nil_dereference
  end.

Definition trace {A : Type} (m : M A) : list Event := m.1.
Definition outcome {A : Type} (m : M A) : Outcome A := m.2.

Definition is_log (e : Event) : bool :=
  match e with EvLog _ _ _ => true | _ => false end.

Definition is_post (e : Event) : bool :=
  match e with EvPost _ _ => true | _ => false end.

(** The reports handed to the store, in order. *)
Definition stored (t : list Event) : list PolicyReport :=
  omap (fun e => match e with EvCreateOrPatchPolicyReport r => Some r | _ => None end) t.

(** The same computation, seen without its log calls. *)
Definition without_logs {A : Type} (m : M A) : M A :=
  (filter (fun e => is_log e = false) m.1, m.2).

(** ** The collaborators of the scanner *)

(** An [*http.Response]: the status code and what [io.ReadAll] makes of the
    body. *)
Record HTTPResponse := {
  StatusCode : Z;
  Body : bytes + error;
}.

(** [cache/pager]: the objects that [EachListItem] walks through, and the
    error that ends the listing, if any. *)
Record ListPager := {
  pager_Items : list RuntimeObject;
  pager_Err : option error;
}.

(** What the scanner calls and does not define: the Kubernetes client, the
    policies client, the report store, the HTTP transport, [encoding/json],
    and the label syntax checks. During one scan a collaborator answers the
    same call in the same way: its answer is a function of the arguments. *)
Record Env := {
  k8sClient_GetNamespace : string -> option error;
  k8sClient_GetResources : GroupVersionResource -> string -> ListPager + error;
  (* the returned list is a pointer *)
  k8sClient_GetAuditedNamespaces : option (list string) * option error;
  policiesClient_GetPoliciesForANamespace : string -> policies.Policies + error;
  policiesClient_GetClusterWidePolicies : policies.Policies + error;
  policyReportStore_CreateOrPatchPolicyReport : PolicyReport -> option error;
  policyReportStore_CreateOrPatchClusterPolicyReport : ClusterPolicyReport -> option error;
  httpClient_Do : string -> bytes -> HTTPResponse + error;
  json_Marshal : AdmissionReview -> bytes + error;
  json_Unmarshal : bytes -> AdmissionReview + error;
  labelSyntax : labels.Syntax;
}.

Definition StatusOK : Z := 200.

(** ** internal/scanner/scanner.go *)

Definition policyMatches (E : Env) (policy : policiesv1.Policy) (resource : Unstructured)
    : M (bool * option error) :=
  match policiesv1.GetObjectSelector policy with
  | None => mret (true, None)
  | Some sel =>
      match LabelSelectorAsSelector (labelSyntax E) (Some sel) with
      | inr err =>
          emit (EvLog ErrorLevel [FErr err] "error creating label selector from policy");;
          mret (false, Some err)
      | inl selector =>
          let labels := GetLabels resource in
          if negb (labels.Matches selector labels)
          then mret (false, None)
          else mret (true, None)
      end
  end.

(** The URL of the policy server is not nil, and building the request from
    its string does not fail (the code ignores that error). *)
Definition sendAdmissionReviewToPolicyServer (E : Env) (url : string)
    (admissionRequest : AdmissionReview) : M (option AdmissionReview * option error) :=
  match json_Marshal E admissionRequest with
  | inr err => mret (None, Some err)
  | inl payload =>
      emit (EvPost url payload);;
      match httpClient_Do E url payload with
      | inr err => mret (None, Some err)
      | inl res =>
          match Body res with
          | inr err => mret (None, Some (ErrWrap "cannot read body of response" err))
          | inl body =>
              if bool_decide (StatusCode res ≠ StatusOK)
              then mret (None, Some (ErrMsg ("unexpected status code: "
                                             +:+ pretty (StatusCode res) +:+ " body: "
                                             +:+ String.string_of_list_byte body)))
              else
                match json_Unmarshal E body with
                | inr err =>
                    mret (None, Some (ErrWrap "cannot deserialize the audit review response" err))
                | inl admissionReview => mret (Some admissionReview, None)
                end
          end
      end
  end.

(** One iteration of the loop of [auditResource]: the report after the policy
    [p], which is unchanged when the policy does not match ([continue]). *)
Definition auditResource_body (E : Env) (p : policies.Policy) (resource : Unstructured)
    (policyreport : PolicyReport) : M PolicyReport :=
  let url := policies.PolicyServer p in
  let policy := policies.Policy_ p in
  '(matches, err) ← policyMatches E policy resource;
  match err with
  | Some e => emit (EvLog ErrorLevel [FErr e] "error matching policy to resource")
  | None => mret tt
  end;;
  if negb matches then mret policyreport
  else
    let admissionRequest := newAdmissionReview resource in
    '(auditResponse, responseErr) ← sendAdmissionReviewToPolicyServer E url admissionRequest;
    errored ← match responseErr with
              | Some e =>
                  request ← deref (Request admissionRequest);
                  emit (EvLog ErrorLevel
                          [FErr e;
                           FStr "admissionRequest name" (req_Name request);
                           FStr "policy" (policiesv1.GetName policy);
                           FStr "resource" (u_Name resource)]
                          "error sending AdmissionReview to PolicyServer");;
                  mret true
              | None =>
                  review ← deref auditResponse;
                  response ← deref (Response review);
                  emit (EvLog DebugLevel
                          [FStr "uid" (resp_UID response);
                           FStr "policy" (policiesv1.GetName policy);
                           FStr "resource" (u_Name resource);
                           FBool "allowed" (resp_Allowed response)]
                          "audit review response");;
                  mret false
              end;
    (* the argument [auditResponse.Response] of the call *)
    review ← deref auditResponse;
    mret (AddResultToPolicyReport policyreport policy (Response review) errored).

Fixpoint auditResource_loop (E : Env) (ps : list policies.Policy) (resource : Unstructured)
    (policyreport : PolicyReport) : M PolicyReport :=
  match ps with
  | [] => mret policyreport
  | p :: ps' =>
      policyreport' ← auditResource_body E p resource policyreport;
      auditResource_loop E ps' resource policyreport'
  end.

Definition auditResource (E : Env) (ps : list policies.Policy) (resource : Unstructured)
    : M unit :=
  policyreport ← auditResource_loop E ps resource (NewPolicyReport resource);
  emit (EvCreateOrPatchPolicyReport policyreport);;
  match policyReportStore_CreateOrPatchPolicyReport E policyreport with
  | Some err => emit (EvLog ErrorLevel [FErr err] "error adding PolicyReport to store")
  | None => mret tt
  end.

(** One iteration of the loop of [auditClusterResource]. *)
Definition auditClusterResource_body (E : Env) (p : policies.Policy)
    (resource : Unstructured) (clusterPolicyReport : ClusterPolicyReport)
    : M ClusterPolicyReport :=
  let url := policies.PolicyServer p in
  let policy := policies.Policy_ p in
  '(matches, err) ← policyMatches E policy resource;
  match err with
  | Some e => emit (EvLog ErrorLevel [FErr e] "error matching policy to resource")
  | None => mret tt
  end;;
  if negb matches then mret clusterPolicyReport
  else
    let admissionRequest := newAdmissionReview resource in
    '(auditResponse, responseErr) ← sendAdmissionReviewToPolicyServer E url admissionRequest;
    errored ← match responseErr with
              | Some e =>
                  request ← deref (Request admissionRequest);
                  emit (EvLog ErrorLevel
                          [FErr e;
                           FStr "admissionRequest name" (req_Name request);
                           FStr "policy" (policiesv1.GetName policy);
                           FStr "resource" (u_Name resource)]
                          "error sending AdmissionReview to PolicyServer");;
                  mret true
              | None =>
                  review ← deref auditResponse;
                  response ← deref (Response review);
                  emit (EvLog DebugLevel
                          [FStr "uid" (resp_UID response);
                           FBool "allowed" (resp_Allowed response);
                           FStr "policy" (policiesv1.GetName policy);
                           FStr "resource" (u_Name resource)]
                          "audit review response");;
                  mret false
              end;
    review ← deref auditResponse;
    mret (AddResultToClusterPolicyReport clusterPolicyReport policy (Response review) errored).

Fixpoint auditClusterResource_loop (E : Env) (ps : list policies.Policy)
    (resource : Unstructured) (clusterPolicyReport : ClusterPolicyReport)
    : M ClusterPolicyReport :=
  match ps with
  | [] => mret clusterPolicyReport
  | p :: ps' =>
      clusterPolicyReport' ← auditClusterResource_body E p resource clusterPolicyReport;
      auditClusterResource_loop E ps' resource clusterPolicyReport'
  end.

Definition auditClusterResource (E : Env) (ps : list policies.Policy)
    (resource : Unstructured) : M unit :=
  clusterPolicyReport ←
    auditClusterResource_loop E ps resource (NewClusterPolicyReport (u_Name resource));
  emit (EvCreateOrPatchClusterPolicyReport clusterPolicyReport);;
  match policyReportStore_CreateOrPatchClusterPolicyReport E clusterPolicyReport with
  | Some err => emit (EvLog ErrorLevel [FErr err] "error adding ClusterPolicyReport to store")
  | None => mret tt
  end.

(** [ListPager.EachListItem]: the callback runs on every object in turn;
    its first error ends the walk, and so does the error of the listing. *)
Fixpoint eachItem (items : list RuntimeObject) (fn : RuntimeObject -> M (option error))
    : M (option error) :=
  match items with
  | [] => mret None
  | obj :: items' =>
      err ← fn obj;
      match err with
      | Some e => mret (Some e)
      | None => eachItem items' fn
      end
  end.

Definition EachListItem (pager : ListPager) (fn : RuntimeObject -> M (option error))
    : M (option error) :=
  err ← eachItem (pager_Items pager) fn;
  match err with
  | Some e => mret (Some e)
  | None => mret (pager_Err pager)
  end.

(** The loop of [ScanNamespace] over [policies.PoliciesByGVR]. *)
Fixpoint ScanNamespace_loop (E : Env) (nsName : string)
    (byGVR : list (GroupVersionResource * list policies.Policy)) : M (option error) :=
  match byGVR with
  | [] => mret None
  | (gvr, ps) :: byGVR' =>
      match k8sClient_GetResources E gvr nsName with
      | inr err => mret (Some err)
      | inl pager =>
          err ← EachListItem pager (fun obj =>
                   match obj with
                   | ObjUnstructured resource =>
                       auditResource E ps resource;;
                       mret None
                   | ObjOther _ =>
                       mret (Some (ErrMsg
                         "failed to convert runtime.Object to *unstructured.Unstructured"))
                   end);
          match err with
          | Some e => mret (Some e)
          | None => ScanNamespace_loop E nsName byGVR'
          end
      end
  end.

Definition ScanNamespace (E : Env) (nsName : string) : M (option error) :=
  emit (EvLog InfoLevel [FStr "namespace" nsName] "namespace scan started");;
  match k8sClient_GetNamespace E nsName with
  | Some err => mret (Some err)
  | None =>
      match policiesClient_GetPoliciesForANamespace E nsName with
      | inr err => mret (Some err)
      | inl policies =>
          emit (EvLog InfoLevel
                  [FStr "namespace" nsName;
                   FInt "policies to evaluate" (policies.PolicyNum policies);
                   FInt "policies skipped" (policies.SkippedNum policies)]
                  "policy count");;
          (* [err] is nil here: neither branch of the test on
             [constants.ErrResourceNotFound] logs anything *)
          ScanNamespace_loop E nsName (policies.PoliciesByGVR policies)
      end
  end.

(** The loop of [ScanAllNamespaces]; [err] is the error joined so far. *)
Fixpoint ScanAllNamespaces_loop (E : Env) (items : list string) (err : option error)
    : M (option error) :=
  match items with
  | [] => mret err
  | ns :: items' =>
      e ← ScanNamespace E ns;
      match e with
      | Some e' =>
          emit (EvLog ErrorLevel [FErr e'; FStr "ns" ns] "error scanning namespace");;
          ScanAllNamespaces_loop E items' (errors_Join [err; Some e'])
      | None => ScanAllNamespaces_loop E items' err
      end
  end.

Definition ScanAllNamespaces (E : Env) : M (option error) :=
  emit (EvLog InfoLevel [] "all-namespaces scan started");;
  let '(nsList, err) := k8sClient_GetAuditedNamespaces E in
  match err with
  | Some e => emit (EvLog ErrorLevel [FErr e] "error scanning all namespaces")
  | None => mret tt
  end;;
  items ← deref nsList;
  err' ← ScanAllNamespaces_loop E items err;
  emit (EvLog InfoLevel [] "all-namespaces scan finished");;
  mret err'.

(** The loop of [ScanClusterWideResources]. *)
Fixpoint ScanClusterWideResources_loop (E : Env)
    (byGVR : list (GroupVersionResource * list policies.Policy)) : M (option error) :=
  match byGVR with
  | [] => mret None
  | (gvr, ps) :: byGVR' =>
      match k8sClient_GetResources E gvr "" with
      | inr err => mret (Some err)
      | inl pager =>
          err ← EachListItem pager (fun obj =>
                   match obj with
                   | ObjUnstructured resource =>
                       auditClusterResource E ps resource;;
                       mret None
                   | ObjOther _ =>
                       mret (Some (ErrMsg
                         "failed to convert runtime.Object to *unstructured.Unstructured"))
                   end);
          match err with
          | Some e => mret (Some e)
          | None => ScanClusterWideResources_loop E byGVR'
          end
      end
  end.

Definition ScanClusterWideResources (E : Env) : M (option error) :=
  emit (EvLog InfoLevel [] "clusterwide resources scan started");;
  match policiesClient_GetClusterWidePolicies E with
  | inr err => mret (Some err)
  | inl policies =>
      emit (EvLog InfoLevel
              [FInt "policies to evaluate" (policies.PolicyNum policies);
               FInt "policies skipped" (policies.SkippedNum policies)]
              "cluster admission policies count");;
      err ← ScanClusterWideResources_loop E (policies.PoliciesByGVR policies);
      match err with
      | Some e => mret (Some e)
      | None =>
          emit (EvLog InfoLevel [] "clusterwide resources scan finished");;
          mret None
      end
  end.

(** ** internal/report/store.go: the cache *)

(** The two cached collections. The mutexes are left out: one call runs at
    a time. The client is an argument of [Save]. *)
Record PolicyReportStore := {
  namespacedPolicyReports : gmap string PolicyReport;
  clusterPolicyReport : ClusterPolicyReport;
}.

Definition MockNewPolicyReportStore : PolicyReportStore :=
  {| namespacedPolicyReports := ∅;
     clusterPolicyReport := NewClusterPolicyReport "clusterwide" |}.

Definition AddPolicyReport (s : PolicyReportStore) (report : PolicyReport)
    : PolicyReportStore * option error :=
  ({| namespacedPolicyReports := <[GetNamespace report := report]> (namespacedPolicyReports s);
      clusterPolicyReport := clusterPolicyReport s |}, None).

Definition AddClusterPolicyReport (s : PolicyReportStore) (report : ClusterPolicyReport)
    : PolicyReportStore * option error :=
  ({| namespacedPolicyReports := namespacedPolicyReports s;
      clusterPolicyReport := report |}, None).

Definition GetPolicyReport (s : PolicyReportStore) (namespace : string)
    : PolicyReport * option error :=
  match namespacedPolicyReports s !! namespace with
  | Some report => (report, None)
  | None => (PolicyReport_zero, Some (ErrMsg "report not found"))
  end.

Definition GetClusterPolicyReport (s : PolicyReportStore)
    : ClusterPolicyReport * option error :=
  (clusterPolicyReport s, None).

Definition UpdatePolicyReport (s : PolicyReportStore) (report : PolicyReport)
    : PolicyReportStore * option error :=
  ({| namespacedPolicyReports := <[GetNamespace report := report]> (namespacedPolicyReports s);
      clusterPolicyReport := clusterPolicyReport s |}, None).

Definition UpdateClusterPolicyReport (s : PolicyReportStore) (report : ClusterPolicyReport)
    : PolicyReportStore * option error :=
  ({| namespacedPolicyReports := namespacedPolicyReports s;
      clusterPolicyReport := report |}, None).

Definition RemovePolicyReport (s : PolicyReportStore) (namespace : string)
    : PolicyReportStore * option error :=
  match (GetPolicyReport s namespace).2 with
  | None =>
      ({| namespacedPolicyReports := delete namespace (namespacedPolicyReports s);
          clusterPolicyReport := clusterPolicyReport s |}, None)
  | Some _ => (s, None)
  end.

Definition RemoveAllNamespacedPolicyReports (s : PolicyReportStore)
    : PolicyReportStore * option error :=
  ({| namespacedPolicyReports := ∅;
      clusterPolicyReport := clusterPolicyReport s |}, None).

(** *** Scopes and histories of the cache *)

(** A scope is a namespace or the cluster-wide singleton; a cached report
    is of the matching kind. *)
Inductive Scope :=
| NamespaceScope (namespace : string)
| ClusterScope.

Inductive Report :=
| Namespaced (r : PolicyReport)
| ClusterWide (r : ClusterPolicyReport).

(** [Get] of a scope, through the getter of that scope. *)
Definition Get (s : PolicyReportStore) (scope : Scope) : Report * option error :=
  match scope with
  | NamespaceScope namespace =>
      let '(r, err) := GetPolicyReport s namespace in (Namespaced r, err)
  | ClusterScope =>
      let '(r, err) := GetClusterPolicyReport s in (ClusterWide r, err)
  end.

(** The calls that change the cache. *)
Inductive StoreOp :=
| OpAddPolicyReport (r : PolicyReport)
| OpUpdatePolicyReport (r : PolicyReport)
| OpAddClusterPolicyReport (r : ClusterPolicyReport)
| OpUpdateClusterPolicyReport (r : ClusterPolicyReport)
| OpRemovePolicyReport (namespace : string)
| OpRemoveAllNamespacedPolicyReports.

Definition apply_op (s : PolicyReportStore) (op : StoreOp) : PolicyReportStore :=
  match op with
  | OpAddPolicyReport r => (AddPolicyReport s r).1
  | OpUpdatePolicyReport r => (UpdatePolicyReport s r).1
  | OpAddClusterPolicyReport r => (AddClusterPolicyReport s r).1
  | OpUpdateClusterPolicyReport r => (UpdateClusterPolicyReport s r).1
  | OpRemovePolicyReport namespace => (RemovePolicyReport s namespace).1
  | OpRemoveAllNamespacedPolicyReports => (RemoveAllNamespacedPolicyReports s).1
  end.

(** The store after a history of calls on a new store, oldest call first. *)
Definition store_after (ops : list StoreOp) : PolicyReportStore :=
  fold_left apply_op ops MockNewPolicyReportStore.

(** The report that a history has put for a scope and not removed since:
    the history is read from its latest call backwards. *)
Fixpoint last_put (rev_ops : list StoreOp) (scope : Scope) : option Report :=
  match rev_ops with
  | [] => None
  | op :: older =>
      match op, scope with
      | OpAddPolicyReport r, NamespaceScope ns
      | OpUpdatePolicyReport r, NamespaceScope ns =>
          if bool_decide (GetNamespace r = ns) then Some (Namespaced r)
          else last_put older scope
      | OpRemovePolicyReport n, NamespaceScope ns =>
          if bool_decide (n = ns) then None else last_put older scope
      | OpRemoveAllNamespacedPolicyReports, NamespaceScope _ => None
      | OpAddClusterPolicyReport r, ClusterScope
      | OpUpdateClusterPolicyReport r, ClusterScope => Some (ClusterWide r)
      | _, _ => last_put older scope
      end
  end.

Definition cached (ops : list StoreOp) (scope : Scope) : option Report :=
  last_put (rev ops) scope.

(** ** internal/report/store.go: [Save] *)

(** [types.NamespacedName] *)
Record NamespacedName := {
  nn_Namespace : string;
  nn_Name : string;
}.

(** The controller-runtime client on policy reports. [W] is the state of
    the API server, which other writers change between two calls: every
    call may leave another state behind. [Get] fills an object or fails.
    [Create] and [Update] receive the pointer to the report and decode the
    answer of the server into it: they return the report as they leave it
    behind the pointer, together with their error. *)
Record Client (W : Type) := {
  client_Get : NamespacedName -> W -> (PolicyReport + error) * W;
  client_Create : PolicyReport -> W -> (PolicyReport * option error) * W;
  client_Update : PolicyReport -> W -> (PolicyReport * option error) * W;
}.
Arguments client_Get {W} _ _ _.
Arguments client_Create {W} _ _ _.
Arguments client_Update {W} _ _ _.

(** What [Save] does, in order: its calls of the client with their results,
    and its log calls. A creation and an update carry the report that was
    sent, the report as the call has left it behind the pointer, and the
    error. *)
Inductive SaveEvent :=
| SvGet (key : NamespacedName) (res : PolicyReport + error)
| SvCreate (r after : PolicyReport) (res : option error)
| SvUpdate (r after : PolicyReport) (res : option error)
| SvLog (lvl : Level) (fields : list LogField) (msg : string).

(** The state that [Save] threads: the API server, the report behind the
    pointer (the closure sets its resource version, the client writes the
    answer of the server into it), and the events. *)
Record SaveState (W : Type) := {
  world : W;
  report : PolicyReport;
  events : list SaveEvent;
}.
Arguments world {W} _.
Arguments report {W} _.
Arguments events {W} _.

(** [retry.DefaultRetry.Steps] *)
Definition DefaultRetry_Steps : nat := 5.

(** [retry.RetryOnConflict] (client-go): [fn] runs at most [steps] times,
    again only after a conflict; the result is nil on success, the error of
    [fn] when it is no conflict, and the last conflict when the steps are
    used up. The waiting between two runs is not modelled. *)
Fixpoint RetryOnConflict_loop {S : Type} (steps : nat) (lastErr : option error)
    (fn : S -> option error * S) (st : S) : option error * S :=
  match steps with
  | O => (lastErr, st)
  | Datatypes.S steps' =>
      let '(err, st') := fn st in
      match err with
      | None => (None, st')
      | Some e =>
          if IsConflict (Some e)
          then RetryOnConflict_loop steps' (Some e) fn st'
          else (Some e, st')
      end
  end.

Definition RetryOnConflict {S : Type} (steps : nat) (fn : S -> option error * S) (st : S)
    : option error * S :=
  RetryOnConflict_loop steps None fn st.

Definition report_key (r : PolicyReport) : NamespacedName :=
  {| nn_Namespace := pr_Namespace r; nn_Name := pr_Name r |}.

Definition record_event {W : Type} (st : SaveState W) (w : W) (r : PolicyReport)
    (e : SaveEvent) : SaveState W :=
  {| world := w; report := r; events := events st ++ [e] |}.

Definition save_log {W : Type} (st : SaveState W) (lvl : Level) (fields : list LogField)
    (msg : string) : SaveState W :=
  record_event st (world st) (report st) (SvLog lvl fields msg).

(** The closure that [Save] passes to [RetryOnConflict]. In its not-found
    branch the log event is built and never sent, so nothing is logged. *)
Definition Save_closure {W : Type} (c : Client W) (st : SaveState W)
    : option error * SaveState W :=
  let '(res, w1) := client_Get c (report_key (report st)) (world st) in
  let st1 := record_event st w1 (report st) (SvGet (report_key (report st)) res) in
  match res with
  | inr err =>
      if IsNotFound (Some err) then (None, st1)
      else (Some (ErrWrap "failed when getting PolicyReport" err), st1)
  | inl getObj =>
      let report' := SetResourceVersion (report st1) (GetResourceVersion getObj) in
      let '((after, updateErr), w2) := client_Update c report' (world st1) in
      (updateErr, record_event st1 w2 after (SvUpdate report' after updateErr))
  end.

Definition Save {W : Type} (c : Client W) (r : PolicyReport) (w : W)
    : option error * SaveState W :=
  let st0 := {| world := w; report := r; events := [] |} in
  let '(res, w1) := client_Get c (report_key r) w in
  let getErr := match res with inr e => Some e | inl _ => None end in
  let st1 := record_event st0 w1 r (SvGet (report_key r) res) in
  if IsNotFound getErr then
    let st2 := save_log st1 InfoLevel [] "creating policy report..." in
    let '((after, err), w2) := client_Create c r (world st2) in
    let st3 := record_event st2 w2 after (SvCreate r after err) in
    match err with
    | Some e => (Some (ErrWrap "failed when creating PolicyReport" e), st3)
    | None => (None, st3)
    end
  else
    let st2 := save_log st1 InfoLevel [] "updating policy report..." in
    let '(retryErr, st3) := RetryOnConflict DefaultRetry_Steps (Save_closure c) st2 in
    let st4 :=
      match retryErr with
      | Some _ =>
          save_log st3 ErrorLevel
            [FStr "report name" (pr_Name (report st3));
             FStr "report ns" (pr_Namespace (report st3))]
            "PolicyReport update failed"
      | None => st3
      end in
    let st5 :=
      save_log st4 InfoLevel
        [FStr "report name" (pr_Name (report st4));
         FStr "report ns" (pr_Namespace (report st4))]
        "updated PolicyReport" in
    (None, st5).

(** *** Reading the events of [Save] *)

Definition get_error (res : PolicyReport + error) : option error :=
  match res with
  | inr e => Some e
  | inl _ => None
  end.

(** The updates and the creations that were sent, with their results. *)
Definition updates (evs : list SaveEvent) : list (PolicyReport * option error) :=
  omap (fun e => match e with SvUpdate r _ res => Some (r, res) | _ => None end) evs.

Definition creates (evs : list SaveEvent) : list (PolicyReport * option error) :=
  omap (fun e => match e with SvCreate r _ res => Some (r, res) | _ => None end) evs.

(** Every update carries the resource version that the call of [Get] just
    before it has read; [read] is that version, if the last call of the
    client was a successful [Get]. *)
Fixpoint tokens_fresh (read : option string) (evs : list SaveEvent) : bool :=
  match evs with
  | [] => true
  | SvGet _ (inl obj) :: evs' => tokens_fresh (Some (GetResourceVersion obj)) evs'
  | SvGet _ (inr _) :: evs' => tokens_fresh None evs'
  | SvUpdate r _ _ :: evs' =>
      bool_decide (read = Some (GetResourceVersion r)) && tokens_fresh None evs'
  | SvCreate _ _ _ :: evs' => tokens_fresh None evs'
  | SvLog _ _ _ :: evs' => tokens_fresh read evs'
  end.

Definition answered_with_conflict (u : PolicyReport * option error) : Prop :=
  IsConflict u.2 = true.

Definition update_failure_logged (evs : list SaveEvent) : Prop :=
  exists fields, SvLog ErrorLevel fields "PolicyReport update failed" ∈ evs.

(** One attempt of the update on the report [r] behind the pointer: the
    persisted object is read again; when it is read, the report is written
    back with the resource version just read. The attempt ends with an
    error or nil, and leaves a report behind the pointer. *)
Inductive UpdateAttempt (r : PolicyReport)
    : list SaveEvent -> option error -> PolicyReport -> Prop :=
| Attempt_gone (err : error) :
    IsNotFound (Some err) = true ->
    UpdateAttempt r [SvGet (report_key r) (inr err)] None r
| Attempt_unread (err : error) :
    IsNotFound (Some err) = false ->
    UpdateAttempt r [SvGet (report_key r) (inr err)]
      (Some (ErrWrap "failed when getting PolicyReport" err)) r
| Attempt_written (getObj after : PolicyReport) (res : option error) :
    UpdateAttempt r
      [SvGet (report_key r) (inl getObj);
       SvUpdate (SetResourceVersion r (GetResourceVersion getObj)) after res]
      res after.

(** The attempts of one reconciliation with a budget of [steps] attempts:
    a further attempt is made exactly when the attempt before it ended with
    a conflict and the budget is not used up. The result is the result of
    the last attempt. *)
Inductive UpdateAttempts
    : nat -> PolicyReport -> list SaveEvent -> option error -> PolicyReport -> Prop :=
| Attempts_done (steps : nat) (r r' : PolicyReport) (evs : list SaveEvent)
    (res : option error) :
    UpdateAttempt r evs res r' ->
    IsConflict res = false ->
    UpdateAttempts (S steps) r evs res r'
| Attempts_exhausted (r r' : PolicyReport) (evs : list SaveEvent) (res : option error) :
    UpdateAttempt r evs res r' ->
    IsConflict res = true ->
    UpdateAttempts 1 r evs res r'
| Attempts_retry (steps : nat) (r r' r'' : PolicyReport) (evs evs' : list SaveEvent)
    (res res' : option error) :
    UpdateAttempt r evs res r' ->
    IsConflict res = true ->
    UpdateAttempts (S steps) r' evs' res' r'' ->
    UpdateAttempts (S (S steps)) r (evs ++ evs') res' r''.

(** The log lines that end the update branch of [Save]: the failure when
    the retries ended with an error, and then, in every case, the line of
    the success. *)
Definition closing_logs (retryErr : option error) (r : PolicyReport) : list SaveEvent :=
  match retryErr with
  | Some _ =>
      [SvLog ErrorLevel [FStr "report name" (pr_Name r); FStr "report ns" (pr_Namespace r)]
         "PolicyReport update failed"]
  | None => []
  end
  ++ [SvLog InfoLevel [FStr "report name" (pr_Name r); FStr "report ns" (pr_Namespace r)]
        "updated PolicyReport"].

(** ** Notions used in the statements *)

(** The ways in which one exchange with the policy server goes wrong. The
    transport is used once the request is serialised; it fails when the
    request gets no response or the body of the response cannot be read. *)
Definition request_not_serialised (E : Env) (review : AdmissionReview) : Prop :=
  exists err, json_Marshal E review = inr err.

Definition transport_fails (E : Env) (url : string) (review : AdmissionReview) : Prop :=
  exists payload,
    json_Marshal E review = inl payload
    /\ ((exists err, httpClient_Do E url payload = inr err)
        \/ (exists res err, httpClient_Do E url payload = inl res /\ Body res = inr err)).

Definition status_not_ok (E : Env) (url : string) (review : AdmissionReview) : Prop :=
  exists payload res body,
    json_Marshal E review = inl payload
    /\ httpClient_Do E url payload = inl res
    /\ Body res = inl body
    /\ StatusCode res <> StatusOK.

Definition body_not_deserialised (E : Env) (url : string) (review : AdmissionReview) : Prop :=
  exists payload res body err,
    json_Marshal E review = inl payload
    /\ httpClient_Do E url payload = inl res
    /\ Body res = inl body
    /\ StatusCode res = StatusOK
    /\ json_Unmarshal E body = inr err.

(** The response that a successful exchange parses. *)
Definition parsed_response (E : Env) (url : string) (review answer : AdmissionReview)
    : Prop :=
  exists payload res body,
    json_Marshal E review = inl payload
    /\ httpClient_Do E url payload = inl res
    /\ Body res = inl body
    /\ StatusCode res = StatusOK
    /\ json_Unmarshal E body = inl answer.

(** Whether [policyMatches] says that the policy applies to the resource. *)
Definition policy_applies (E : Env) (resource : Unstructured) (p : policies.Policy) : bool :=
  match outcome (policyMatches E (policies.Policy_ p) resource) with
  | Returned (matches, _) => matches
  | Panicked _ => false
  end.

(** The objects that a scan of a namespace walks through: what the listing
    of every resource type holds. *)
Definition listed (E : Env) (nsName : string)
    (byGVR : list (GroupVersionResource * list policies.Policy)) : list RuntimeObject :=
  flat_map (fun '(gvr, _) =>
              match k8sClient_GetResources E gvr nsName with
              | inl pager => pager_Items pager
              | inr _ => []
              end) byGVR.

(** The error with which the scan of a namespace returned; nil when it
    returned without error. *)
Definition scan_error (E : Env) (nsName : string) : option error :=
  match outcome (ScanNamespace E nsName) with
  | Returned err => err
  | Panicked _ => None
  end.

Definition scan_returns (E : Env) (nsName : string) : Prop :=
  exists err, outcome (ScanNamespace E nsName) = Returned err.

(** What [ScanAllNamespaces] does for one namespace: the scan, and the log
    call when the scan returned an error. *)
Definition attempt (E : Env) (nsName : string) : list Event :=
  trace (ScanNamespace E nsName)
  ++ match scan_error E nsName with
     | Some e => [EvLog ErrorLevel [FErr e; FStr "ns" nsName] "error scanning namespace"]
     | None => []
     end.

(** The errors that an aggregated error stands for. *)
Definition joined_errors (err : option error) : list error :=
  match err with
  | Some e => joined e
  | None => []
  end.

(** The error that a call returned, nil when it panicked. *)
Definition outcome_error {A : Type} (m : M (A * option error)) : option error :=
  match outcome m with
  | Returned (_, err) => err
  | Panicked _ => None
  end.

(** The last step of [auditResource]: the report goes to the store once the
    loop has returned, and an error of the store is logged only. *)
Definition handed_over (E : Env) (policyreport : PolicyReport) : list Event :=
  EvCreateOrPatchPolicyReport policyreport
  :: match policyReportStore_CreateOrPatchPolicyReport E policyreport with
     | Some err => [EvLog ErrorLevel [FErr err] "error adding PolicyReport to store"]
     | None => []
     end.

(** ** Concrete collaborators, to run the code on *)

Module Examples.

(** Label syntax checks that refuse the empty key only. *)
Definition syntax : labels.Syntax :=
  {| labels.validateLabelKey := fun k =>
       if bool_decide (k = "") then Some (ErrMsg "name part must be non-empty") else None;
     labels.validateLabelValue := fun _ _ => None |}.

Definition pod (name : string) (lbls : list (string * string)) : Unstructured :=
  {| u_Kind := "Pod"; u_Namespace := "ns1"; u_Name := name;
     u_Labels := list_to_map lbls; u_Content := "" |}.

Definition pod1 : Unstructured := pod "pod1" [("app", "web")].
Definition pod2 : Unstructured := pod "pod2" [("app", "db")].

Definition pods : GroupVersionResource :=
  {| gvr_Group := ""; gvr_Version := "v1"; gvr_Resource := "pods" |}.

Definition policy (name : string) (sel : option LabelSelector) : policies.Policy :=
  {| policies.Policy_ := {| policiesv1.Name := name; policiesv1.ObjectSelector := sel |};
     policies.PolicyServer := "https://policy-server:8443/audit/" +:+ name |}.

(** A policy without selector, one that selects [app=web], and one whose
    selector has an operator that does not exist. *)
Definition no_selector : policies.Policy := policy "no-selector" None.

Definition web_only : policies.Policy :=
  policy "web-only"
    (Some {| MatchLabels := {[ "app" := "web" ]}; MatchExpressions := [] |}).

Definition malformed : policies.Policy :=
  policy "malformed"
    (Some {| MatchLabels := ∅;
             MatchExpressions :=
               [{| lsr_Key := "app"; lsr_Operator := "Within"; lsr_Values := ["web"] |}] |}).

Definition allowed_review : AdmissionReview :=
  {| Request := None;
     Response := Some {| resp_UID := "uid"; resp_Allowed := true; resp_Message := "" |} |}.

Definition payload_of (review : AdmissionReview) : bytes :=
  String.list_byte_of_string (from_option req_Name "" (Request review)).

(** Scenario A: namespace ns1, one policy without selector bound to
    pods, two pods, a policy server that allows everything. *)
Definition scenarioA : Env :=
  {| k8sClient_GetNamespace := fun _ => None;
     k8sClient_GetResources := fun _ _ =>
       inl {| pager_Items := [ObjUnstructured pod1; ObjUnstructured pod2];
              pager_Err := None |};
     k8sClient_GetAuditedNamespaces := (Some ["ns1"], None);
     policiesClient_GetPoliciesForANamespace := fun _ =>
       inl {| policies.PoliciesByGVR := [(pods, [no_selector])];
              policies.PolicyNum := 1; policies.SkippedNum := 0 |};
     policiesClient_GetClusterWidePolicies :=
       inl {| policies.PoliciesByGVR := []; policies.PolicyNum := 0;
              policies.SkippedNum := 0 |};
     policyReportStore_CreateOrPatchPolicyReport := fun _ => None;
     policyReportStore_CreateOrPatchClusterPolicyReport := fun _ => None;
     httpClient_Do := fun _ payload => inl {| StatusCode := 200; Body := inl payload |};
     json_Marshal := fun review => inl (payload_of review);
     json_Unmarshal := fun _ => inl allowed_review;
     labelSyntax := syntax |}.

(** Scenario B: as scenario A, but every call of the policy server times
    out. *)
Definition timeout : error := ErrMsg "context deadline exceeded".

Definition scenarioB : Env :=
  {| k8sClient_GetNamespace := k8sClient_GetNamespace scenarioA;
     k8sClient_GetResources := k8sClient_GetResources scenarioA;
     k8sClient_GetAuditedNamespaces := k8sClient_GetAuditedNamespaces scenarioA;
     policiesClient_GetPoliciesForANamespace :=
       policiesClient_GetPoliciesForANamespace scenarioA;
     policiesClient_GetClusterWidePolicies :=
       policiesClient_GetClusterWidePolicies scenarioA;
     policyReportStore_CreateOrPatchPolicyReport :=
       policyReportStore_CreateOrPatchPolicyReport scenarioA;
     policyReportStore_CreateOrPatchClusterPolicyReport :=
       policyReportStore_CreateOrPatchClusterPolicyReport scenarioA;
     httpClient_Do := fun _ _ => inr timeout;
     json_Marshal := json_Marshal scenarioA;
     json_Unmarshal := json_Unmarshal scenarioA;
     labelSyntax := syntax |}.

(** As scenario A, but the request cannot be serialised. *)
Definition unserialisable : error := ErrMsg "json: unsupported value: NaN".

Definition scenarioMarshal : Env :=
  {| k8sClient_GetNamespace := k8sClient_GetNamespace scenarioA;
     k8sClient_GetResources := k8sClient_GetResources scenarioA;
     k8sClient_GetAuditedNamespaces := k8sClient_GetAuditedNamespaces scenarioA;
     policiesClient_GetPoliciesForANamespace :=
       policiesClient_GetPoliciesForANamespace scenarioA;
     policiesClient_GetClusterWidePolicies :=
       policiesClient_GetClusterWidePolicies scenarioA;
     policyReportStore_CreateOrPatchPolicyReport :=
       policyReportStore_CreateOrPatchPolicyReport scenarioA;
     policyReportStore_CreateOrPatchClusterPolicyReport :=
       policyReportStore_CreateOrPatchClusterPolicyReport scenarioA;
     httpClient_Do := httpClient_Do scenarioA;
     json_Marshal := fun _ => inr unserialisable;
     json_Unmarshal := json_Unmarshal scenarioA;
     labelSyntax := syntax |}.

(** Scenario D: three namespaces, of which bad-ns does not exist any
    more when it is scanned. *)
Definition bad_ns : error := ErrStatus StatusReasonNotFound "namespaces bad-ns not found".

Definition scenarioD : Env :=
  {| k8sClient_GetNamespace := fun ns =>
       if bool_decide (ns = "bad-ns") then Some bad_ns else None;
     k8sClient_GetResources := k8sClient_GetResources scenarioA;
     k8sClient_GetAuditedNamespaces := (Some ["ns1"; "bad-ns"; "ns2"], None);
     policiesClient_GetPoliciesForANamespace :=
       policiesClient_GetPoliciesForANamespace scenarioA;
     policiesClient_GetClusterWidePolicies :=
       policiesClient_GetClusterWidePolicies scenarioA;
     policyReportStore_CreateOrPatchPolicyReport :=
       policyReportStore_CreateOrPatchPolicyReport scenarioA;
     policyReportStore_CreateOrPatchClusterPolicyReport :=
       policyReportStore_CreateOrPatchClusterPolicyReport scenarioA;
     httpClient_Do := httpClient_Do scenarioA;
     json_Marshal := json_Marshal scenarioA;
     json_Unmarshal := json_Unmarshal scenarioA;
     labelSyntax := syntax |}.

(** An API server that holds one policy report under a version counter
    and answers the next [conflicts] updates with a conflict, as if
    another writer were faster each time. A call that succeeds answers with
    the object under its new version, which the client writes into the
    report of the caller; a call that fails leaves that report as it is. *)
Record Server := {
  persisted : option PolicyReport;
  version : nat;
  conflicts : nat;
}.

Definition conflict : error := ErrStatus StatusReasonConflict "the object has been modified".
Definition not_found : error := ErrStatus StatusReasonNotFound "not found".
Definition already_exists : error := ErrStatus StatusReasonUnknown "already exists".

Definition server_client : Client Server :=
  {| client_Get := fun _ w =>
       match persisted w with
       | Some r => (inl (SetResourceVersion r (pretty (version w))), w)
       | None => (inr not_found, w)
       end;
     client_Create := fun r w =>
       match persisted w with
       | Some _ => ((r, Some already_exists), w)
       | None =>
           ((SetResourceVersion r (pretty 1%nat), None),
            {| persisted := Some r; version := 1; conflicts := conflicts w |})
       end;
     client_Update := fun r w =>
       match conflicts w with
       | S n =>
           ((r, Some conflict),
            {| persisted := persisted w; version := S (version w); conflicts := n |})
       | O =>
           if bool_decide (pr_ResourceVersion r = pretty (version w))
           then ((SetResourceVersion r (pretty (S (version w))), None),
                 {| persisted := Some r; version := S (version w); conflicts := 0 |})
           else ((r, Some conflict), w)
       end |}.

Definition report1 : PolicyReport :=
  {| pr_Name := "polr-ns-ns1"; pr_Namespace := "ns1"; pr_ResourceVersion := "";
     pr_Results := [{| res_Policy := "no-selector"; res_Allowed := true;
                       res_Errored := false; res_Message := "" |}] |}.

Definition report2 : PolicyReport :=
  {| pr_Name := "polr-ns-ns2"; pr_Namespace := "ns2"; pr_ResourceVersion := "";
     pr_Results := [] |}.

End Examples.

(** ** Further notions used in the statements *)

(** The calls on the cluster-wide report. *)
Definition is_cluster_op (op : StoreOp) : bool :=
  match op with
  | OpAddClusterPolicyReport _ | OpUpdateClusterPolicyReport _ => true
  | _ => false
  end.

(** The calls of the client among the events of [Save]. *)
Definition is_client_call (e : SaveEvent) : bool :=
  match e with
  | SvLog _ _ _ => false
  | _ => true
  end.

Definition client_calls (evs : list SaveEvent) : list SaveEvent :=
  List.filter is_client_call evs.

(** The reports that the creations and the updates have left behind the
    pointer, in order. *)
Definition written_back (evs : list SaveEvent) : list PolicyReport :=
  omap (fun e => match e with
                 | SvCreate _ after _ | SvUpdate _ after _ => Some after
                 | _ => None
                 end) evs.

(** Every creation is sent the report that is behind the pointer, and every
    update that report with another resource version and nothing else
    changed; [r] is the report behind the pointer before the events. *)
Fixpoint sent_with_version_only (r : PolicyReport) (evs : list SaveEvent) : Prop :=
  match evs with
  | [] => True
  | SvCreate sent after _ :: evs' => sent = r /\ sent_with_version_only after evs'
  | SvUpdate sent after _ :: evs' =>
      sent = SetResourceVersion r (GetResourceVersion sent)
      /\ sent_with_version_only after evs'
  | _ :: evs' => sent_with_version_only r evs'
  end.

(** The client has written nothing but a resource version into the report
    that it was sent. *)
Definition version_only_written (e : SaveEvent) : Prop :=
  match e with
  | SvCreate sent after _ | SvUpdate sent after _ =>
      after = SetResourceVersion sent (GetResourceVersion after)
  | _ => True
  end.

(** The response that the policy server gives for a policy and a resource:
    nil when the call returns an error, and when the answer carries no
    response. *)
Definition verdict (E : Env) (resource : Unstructured) (p : policies.Policy)
    : option AdmissionResponse :=
  match outcome (sendAdmissionReviewToPolicyServer E (policies.PolicyServer p)
                   (newAdmissionReview resource)) with
  | Returned (Some review, None) => Response review
  | _ => None
  end.

(** Every policy of the list that applies to the resource has a verdict. *)
Definition all_answered (E : Env) (resource : Unstructured) (ps : list policies.Policy)
    : bool :=
  forallb (fun p => negb (policy_applies E resource p)
                    || bool_decide (is_Some (verdict E resource p))) ps.

(** The rows that the policies which apply add to the report, in the order
    of the policies. *)
Definition expected_results (E : Env) (resource : Unstructured) (ps : list policies.Policy)
    : list PolicyReportResult :=
  map (fun p => newResult (policies.Policy_ p) (verdict E resource p) false)
    (filter (policy_applies E resource) ps).

Definition append_results (r : PolicyReport) (rows : list PolicyReportResult)
    : PolicyReport :=
  {| pr_Name := pr_Name r; pr_Namespace := pr_Namespace r;
     pr_ResourceVersion := pr_ResourceVersion r;
     pr_Results := pr_Results r ++ rows |}.

(** The URLs that a trace has posted to, in order. *)
Definition posted (t : list Event) : list string :=
  omap (fun e => match e with EvPost url _ => Some url | _ => None end) t.

(** The cluster-wide reports handed to the store, in order. *)
Definition stored_cluster (t : list Event) : list ClusterPolicyReport :=
  omap (fun e => match e with
                 | EvCreateOrPatchClusterPolicyReport r => Some r
                 | _ => None
                 end) t.

(** The same collaborators with another report store. *)
Definition with_store (E : Env) (store : PolicyReport -> option error) : Env :=
  {| k8sClient_GetNamespace := k8sClient_GetNamespace E;
     k8sClient_GetResources := k8sClient_GetResources E;
     k8sClient_GetAuditedNamespaces := k8sClient_GetAuditedNamespaces E;
     policiesClient_GetPoliciesForANamespace := policiesClient_GetPoliciesForANamespace E;
     policiesClient_GetClusterWidePolicies := policiesClient_GetClusterWidePolicies E;
     policyReportStore_CreateOrPatchPolicyReport := store;
     policyReportStore_CreateOrPatchClusterPolicyReport :=
       policyReportStore_CreateOrPatchClusterPolicyReport E;
     httpClient_Do := httpClient_Do E;
     json_Marshal := json_Marshal E;
     json_Unmarshal := json_Unmarshal E;
     labelSyntax := labelSyntax E |}.

(** The error of the callback of the pager on an object that is not an
    [*unstructured.Unstructured]. *)
Definition conversion_error : error :=
  ErrMsg "failed to convert runtime.Object to *unstructured.Unstructured".

Definition is_other (obj : RuntimeObject) : bool :=
  match obj with
  | ObjOther _ => true
  | ObjUnstructured _ => false
  end.

(** The errors that the listing of the resources of a namespace can give:
    for every resource type the error of [GetResources], or else the
    conversion error when an object of the listing is of another type, and
    the error that ends the listing. *)
Definition listing_errors (E : Env) (nsName : string)
    (byGVR : list (GroupVersionResource * list policies.Policy)) : list error :=
  flat_map (fun '(gvr, _) =>
              match k8sClient_GetResources E gvr nsName with
              | inr e => [e]
              | inl pager =>
                  (if existsb is_other (pager_Items pager) then [conversion_error] else [])
                  ++ option_list (pager_Err pager)
              end) byGVR.

(** The errors of the enumeration of a namespace: of the namespace itself,
    of its policies, of its resources. *)
Definition enumeration_errors (E : Env) (nsName : string) : list error :=
  option_list (k8sClient_GetNamespace E nsName)
  ++ match policiesClient_GetPoliciesForANamespace E nsName with
     | inr e => [e]
     | inl policies => listing_errors E nsName (policies.PoliciesByGVR policies)
     end.

(** ** internal/scanner/scanner.go: [NewScanner] *)

(** An [x509.CertPool]: the certificates it holds, in the order in which
    they were added. *)
Abbreviation CertPool := (list bytes).

(** What [NewScanner] finds on the machine: the system certificate pool
    (nil when it cannot be loaded), the file system, the certificates that
    [AppendCertsFromPEM] finds in PEM data, and whether
    [http.DefaultTransport] is still an [*http.Transport]. [quote] is the
    verb %q of the error message. *)
Record Machine := {
  x509_SystemCertPool : option CertPool;
  os_ReadFile : string -> bytes + error;
  pem_certificates : bytes -> list bytes;
  DefaultTransport_is_Transport : bool;
  quote : string -> string;
}.

(** [tls.Config], the fields that are set. *)
Record tls_Config := {
  RootCAs : CertPool;
  MinVersion : Z;
  InsecureSkipVerify : bool;
}.

Definition tls_VersionTLS12 : Z := 771.
Definition time_Second : Z := 1000000000.

(** The [Scanner]: its three clients, the timeout and the TLS
    configuration of its HTTP client, and the flag [outputScan]. *)
Record Scanner (P K S : Type) := {
  policiesClient : P;
  k8sClient : K;
  policyReportStore : S;
  httpClient_Timeout : Z;
  httpClient_TLSClientConfig : tls_Config;
  outputScan : bool;
}.
Arguments policiesClient {P K S} _.
Arguments k8sClient {P K S} _.
Arguments policyReportStore {P K S} _.
Arguments httpClient_Timeout {P K S} _.
Arguments httpClient_TLSClientConfig {P K S} _.
Arguments outputScan {P K S} _.

(** The clients and the flag of a scanner are the given ones. *)
Definition scanner_holds {P K S : Type} (scanner : Scanner P K S) (policiesClient' : P)
    (k8sClient' : K) (policyReportStore' : S) (outputScan' : bool) : Prop :=
  policiesClient scanner = policiesClient'
  /\ k8sClient scanner = k8sClient'
  /\ policyReportStore scanner = policyReportStore'
  /\ outputScan scanner = outputScan'.

(** [AppendCertsFromPEM]: the pool with the certificates of the data, and
    whether there was one. *)
Definition AppendCertsFromPEM (X : Machine) (pool : CertPool) (certs : bytes)
    : CertPool * bool :=
  (pool ++ pem_certificates X certs, negb (bool_decide (pem_certificates X certs = []))).

Definition NewScanner {P K S : Type} (X : Machine) (policiesClient : P) (k8sClient : K)
    (policyReportStore : S) (outputScan insecureClient : bool) (caCertFile : string)
    : M (Scanner P K S + error) :=
  let rootCAs := default [] (x509_SystemCertPool X) in
  r ← (if bool_decide (caCertFile ≠ "") then
         match os_ReadFile X caCertFile with
         | inr err =>
             mret (inr (ErrWrap ("failed to read file " +:+ quote X caCertFile
                                 +:+ " with CA cert") err))
         | inl certs =>
             let '(rootCAs', ok) := AppendCertsFromPEM X rootCAs certs in
             if negb ok
             then mret (inr (ErrMsg "failed to append cert to in-app RootCAs trust store"))
             else
               emit (EvLog DebugLevel [FStr "ca-cert-file" caCertFile]
                       "appended cert file to in-app RootCAs trust store");;
               mret (inl rootCAs')
         end
       else mret (inl rootCAs));
  match r with
  | inr err => mret (inr err)
  | inl rootCAs =>
      if negb (DefaultTransport_is_Transport X)
      then mret (inr (ErrMsg
                  "failed to build httpClient: failed http.Transport type assertion"))
      else
        (if insecureClient
         then emit (EvLog WarnLevel []
                "connecting to PolicyServers endpoints without validating TLS connection")
         else mret tt);;
        mret (inl {| policiesClient := policiesClient;
                     k8sClient := k8sClient;
                     policyReportStore := policyReportStore;
                     httpClient_Timeout := 10 * time_Second;
                     httpClient_TLSClientConfig :=
                       {| RootCAs := rootCAs; MinVersion := tls_VersionTLS12;
                          InsecureSkipVerify := insecureClient |};
                     outputScan := outputScan |})
  end.

(** ** internal/log/level.go *)

Module zerolog.

(** [zerolog.Level] *)
Inductive Level :=
| TraceLevel | DebugLevel | InfoLevel | WarnLevel | ErrorLevel | FatalLevel
| PanicLevel | NoLevel | Disabled.

(** [zerolog.ParseLevel] on the names of the levels; what it makes of any
    other string (a name in other letter case, a number) is the parameter
    [other]. *)
Definition ParseLevel (other : string -> Level + error) (levelStr : string)
    : Level + error :=
  if bool_decide (levelStr = "trace") then inl TraceLevel
  else if bool_decide (levelStr = "debug") then inl DebugLevel
  else if bool_decide (levelStr = "info") then inl InfoLevel
  else if bool_decide (levelStr = "warn") then inl WarnLevel
  else if bool_decide (levelStr = "error") then inl ErrorLevel
  else if bool_decide (levelStr = "fatal") then inl FatalLevel
  else if bool_decide (levelStr = "panic") then inl PanicLevel
  else if bool_decide (levelStr = "disabled") then inl Disabled
  else if bool_decide (levelStr = "") then inl NoLevel
  else other levelStr.

End zerolog.

Module logconfig.

(** The flag value [Level]. *)
Record Level := { value : string }.

(** The zero value, before any call of [Set]. *)
Definition Level_zero : Level := {| value := "" |}.

(** The values of [zerolog.LevelTraceValue] to [zerolog.LevelFatalValue]. *)
Definition GetSupportedValues : list string :=
  ["trace"; "debug"; "info"; "warn"; "error"; "fatal"].

Definition Level_String (l : Level) : string :=
  if bool_decide (value l = "") then "info" else value l.

(** The loop of [Set] over the supported values. *)
Fixpoint Level_Set_loop (level : string) (opts : list string) (l : Level)
    (isIncluded : bool) : Level * bool :=
  match opts with
  | [] => (l, isIncluded)
  | opt :: opts' =>
      if bool_decide (level = opt)
      then Level_Set_loop level opts' {| value := level |} true
      else Level_Set_loop level opts' l isIncluded
  end.

(** The verb %s on an array of strings. *)
Definition format_strings (l : list string) : string :=
  "[" +:+ String.concat " " l +:+ "]".

Definition Level_Set (l : Level) (level : string) : Level * option error :=
  let supportedValues := GetSupportedValues in
  let '(l', isIncluded) := Level_Set_loop level supportedValues l false in
  if negb isIncluded
  then (l', Some (ErrMsg ("supported values: " +:+ format_strings supportedValues)))
  else (l', None).

Definition Level_Type (l : Level) : string := "string".

(** [SetZeroLogLevel]: the global level of zerolog that it sets. *)
Definition Level_SetZeroLogLevel (other : string -> zerolog.Level + error) (l : Level)
    : zerolog.Level :=
  match zerolog.ParseLevel other (Level_String l) with
  | inr _ => zerolog.InfoLevel
  | inl level => level
  end.

(** The flag after a series of calls of [Set], whose errors are ignored. *)
Definition Level_after (calls : list string) : Level :=
  fold_left (fun l level => (Level_Set l level).1) calls Level_zero.

(** ** internal/log/slogger.go *)

(** [slog.Level] is an integer. *)
Definition LevelTrace : Z := -8.
Definition LevelDebug : Z := -4.
Definition LevelInfo : Z := 0.
Definition LevelWarn : Z := 4.
Definition LevelError : Z := 8.
Definition LevelFatal : Z := 9.

Definition LevelTraceString : string := "trace".
Definition LevelDebugString : string := "debug".
Definition LevelInfoString : string := "info".
Definition LevelWarnString : string := "warning".
Definition LevelErrorString : string := "error".
Definition LevelFatalString : string := "fatal".

(** A [slog.Value]: a level, a string, or anything else. *)
Inductive Value :=
| LevelValue (level : Z)
| StringValue (s : string)
| OtherValue (repr : string).

(** [slog.Attr] *)
Record Attr := {
  Key : string;
  Value_ : Value;
}.

Definition slog_LevelKey : string := "level".
Definition slog_MessageKey : string := "msg".

(** The function [ReplaceAttr] of the handler options. The type assertion
    on a value that is no level leaves the zero level. *)
Definition ReplaceAttr (groups : list string) (a : Attr) : Attr :=
  let a1 :=
    if bool_decide (Key a = slog_LevelKey) then
      let level := match Value_ a with LevelValue z => z | _ => 0 end in
      {| Key := Key a;
         Value_ := StringValue
                     (if bool_decide (level < LevelDebug) then LevelTraceString
                      else if bool_decide (level < LevelInfo) then LevelDebugString
                      else if bool_decide (level < LevelWarn) then LevelInfoString
                      else if bool_decide (level < LevelError) then LevelWarnString
                      else if bool_decide (level < LevelFatal) then LevelErrorString
                      else LevelFatalString) |}
    else a in
  if bool_decide (Key a1 = slog_MessageKey)
  then {| Key := "message"; Value_ := Value_ a1 |}
  else a1.

(** The handler that [NewSlogger] builds: its minimum level; its
    [ReplaceAttr] is the function above. The writer is left out. *)
Record JSONHandler := { opt_Level : Z }.

(** [NewSlogger]; [quote] is the verb %q of the panic message. *)
Definition NewSlogger (quote : string -> string) (level : string) : Outcome JSONHandler :=
  if bool_decide (level = LevelTraceString) then Returned {| opt_Level := LevelTrace |}
  else if bool_decide (level = LevelDebugString) then Returned {| opt_Level := LevelDebug |}
  else if bool_decide (level = LevelInfoString) then Returned {| opt_Level := LevelInfo |}
  else if bool_decide (level = LevelWarnString) then Returned {| opt_Level := LevelWarn |}
  else if bool_decide (level = LevelErrorString) then Returned {| opt_Level := LevelError |}
  else if bool_decide (level = LevelFatalString) then Returned {| opt_Level := LevelFatal |}
  else Panicked ("invalid log level: " +:+ quote level
                 +:+ String (Ascii.ascii_of_nat 10) EmptyString).

(** The name under which [ReplaceAttr] shows a level. *)
Definition shown (level : Z) : Value :=
  Value_ (ReplaceAttr [] {| Key := slog_LevelKey; Value_ := LevelValue level |}).

End logconfig.

Module MoreExamples.

(** As scenario D, but the listing of the namespaces returns an error
    together with a list. *)
Definition listing_failed : error := ErrMsg "can't list namespaces: partial result".

Definition scenarioListing : Env :=
  {| k8sClient_GetNamespace := k8sClient_GetNamespace Examples.scenarioD;
     k8sClient_GetResources := k8sClient_GetResources Examples.scenarioD;
     k8sClient_GetAuditedNamespaces := (Some ["ns1"; "bad-ns"], Some listing_failed);
     policiesClient_GetPoliciesForANamespace :=
       policiesClient_GetPoliciesForANamespace Examples.scenarioD;
     policiesClient_GetClusterWidePolicies :=
       policiesClient_GetClusterWidePolicies Examples.scenarioD;
     policyReportStore_CreateOrPatchPolicyReport :=
       policyReportStore_CreateOrPatchPolicyReport Examples.scenarioD;
     policyReportStore_CreateOrPatchClusterPolicyReport :=
       policyReportStore_CreateOrPatchClusterPolicyReport Examples.scenarioD;
     httpClient_Do := httpClient_Do Examples.scenarioD;
     json_Marshal := json_Marshal Examples.scenarioD;
     json_Unmarshal := json_Unmarshal Examples.scenarioD;
     labelSyntax := labelSyntax Examples.scenarioD |}.

(** A machine with one system certificate and one readable PEM file. *)
Definition system_cert : bytes := String.list_byte_of_string "system-root".
Definition extra_cert : bytes := String.list_byte_of_string "extra-ca".

Definition machine : Machine :=
  {| x509_SystemCertPool := Some [system_cert];
     os_ReadFile := fun name =>
       if bool_decide (name = "/etc/ca.pem") then inl extra_cert
       else inr (ErrMsg "no such file or directory");
     pem_certificates := fun data => match data with [] => [] | _ => [data] end;
     DefaultTransport_is_Transport := true;
     quote := fun name => double_quote +:+ name +:+ double_quote |}.

(** A cluster with one cluster-wide policy, bound to namespaces, and two
    namespaces to list; the policy server allows everything. *)
Definition namespaces : GroupVersionResource :=
  {| gvr_Group := ""; gvr_Version := "v1"; gvr_Resource := "namespaces" |}.

Definition namespace_object (name : string) : Unstructured :=
  {| u_Kind := "Namespace"; u_Namespace := ""; u_Name := name;
     u_Labels := ∅; u_Content := "" |}.

Definition scenarioCluster : Env :=
  {| k8sClient_GetNamespace := k8sClient_GetNamespace Examples.scenarioA;
     k8sClient_GetResources := fun gvr nsName =>
       if bool_decide (gvr_Resource gvr = "namespaces") && bool_decide (nsName = "")
       then inl {| pager_Items := [ObjUnstructured (namespace_object "ns1");
                                   ObjUnstructured (namespace_object "ns2")];
                   pager_Err := None |}
       else k8sClient_GetResources Examples.scenarioA gvr nsName;
     k8sClient_GetAuditedNamespaces := k8sClient_GetAuditedNamespaces Examples.scenarioA;
     policiesClient_GetPoliciesForANamespace :=
       policiesClient_GetPoliciesForANamespace Examples.scenarioA;
     policiesClient_GetClusterWidePolicies :=
       inl {| policies.PoliciesByGVR := [(namespaces, [Examples.no_selector])];
              policies.PolicyNum := 1; policies.SkippedNum := 0 |};
     policyReportStore_CreateOrPatchPolicyReport :=
       policyReportStore_CreateOrPatchPolicyReport Examples.scenarioA;
     policyReportStore_CreateOrPatchClusterPolicyReport :=
       policyReportStore_CreateOrPatchClusterPolicyReport Examples.scenarioA;
     httpClient_Do := httpClient_Do Examples.scenarioA;
     json_Marshal := json_Marshal Examples.scenarioA;
     json_Unmarshal := json_Unmarshal Examples.scenarioA;
     labelSyntax := labelSyntax Examples.scenarioA |}.

(** Two namespaces. The policy of ns1 is evaluated by a policy server whose
    calls time out, as in scenario B; the policy of ns2 by the server of
    scenario A, which allows everything. *)
Definition slow : policies.Policy := Examples.policy "slow" None.

Definition scenarioTwoNamespaces : Env :=
  {| k8sClient_GetNamespace := k8sClient_GetNamespace Examples.scenarioA;
     k8sClient_GetResources := k8sClient_GetResources Examples.scenarioA;
     k8sClient_GetAuditedNamespaces := (Some ["ns1"; "ns2"], None);
     policiesClient_GetPoliciesForANamespace := fun nsName =>
       if bool_decide (nsName = "ns1")
       then inl {| policies.PoliciesByGVR := [(Examples.pods, [slow])];
                   policies.PolicyNum := 1; policies.SkippedNum := 0 |}
       else policiesClient_GetPoliciesForANamespace Examples.scenarioA nsName;
     policiesClient_GetClusterWidePolicies :=
       policiesClient_GetClusterWidePolicies Examples.scenarioA;
     policyReportStore_CreateOrPatchPolicyReport :=
       policyReportStore_CreateOrPatchPolicyReport Examples.scenarioA;
     policyReportStore_CreateOrPatchClusterPolicyReport :=
       policyReportStore_CreateOrPatchClusterPolicyReport Examples.scenarioA;
     httpClient_Do := fun url payload =>
       if bool_decide (url = policies.PolicyServer slow) then inr Examples.timeout
       else httpClient_Do Examples.scenarioA url payload;
     json_Marshal := json_Marshal Examples.scenarioA;
     json_Unmarshal := json_Unmarshal Examples.scenarioA;
     labelSyntax := labelSyntax Examples.scenarioA |}.

End MoreExamples.

(** Two audits that agree: the same requests, nothing handed over, and the
    same end, with the same rows in the two reports. *)
Definition agree (m : M PolicyReport) (mc : M ClusterPolicyReport)
    (before : ClusterPolicyReport) : Prop :=
  posted (trace mc) = posted (trace m)
  /\ stored_cluster (trace mc) = []
  /\ stored_cluster (trace m) = []
  /\ stored (trace mc) = []
  /\ match outcome m, outcome mc with
     | Returned r, Returned c =>
         cpr_Results c = pr_Results r
         /\ cpr_Name c = cpr_Name before
         /\ cpr_ResourceVersion c = cpr_ResourceVersion before
     | Panicked msg, Panicked msgc => msgc = msg
     | _, _ => False
     end.

(** What a label selector asks of the labels of a resource, read off its
    fields: an expression holds when its operator is one of the four known
    ones and the label of its key is as the operator says. *)
Definition expression_holds (ls : gmap string string) (expr : LabelSelectorRequirement)
    : Prop :=
  (lsr_Operator expr = "In"
   /\ exists v, ls !! lsr_Key expr = Some v /\ v ∈ lsr_Values expr)
  \/ (lsr_Operator expr = "NotIn"
      /\ forall v, ls !! lsr_Key expr = Some v -> v ∉ lsr_Values expr)
  \/ (lsr_Operator expr = "Exists" /\ is_Some (ls !! lsr_Key expr))
  \/ (lsr_Operator expr = "DoesNotExist" /\ ls !! lsr_Key expr = None).

(** * Properties *)

(** ** The trace monad *)

Lemma bind_ret_l {A B : Type} (a : A) (f : A -> M B) : (mret a ≫= f) = f a.
Proof. unfold mret, mbind, M_ret, M_bind. by destruct (f a). Qed.

Lemma bind_ret_r {A : Type} (m : M A) : (m ≫= mret) = m.
Proof.
  destruct m as [t [a | msg]]; unfold mret, mbind, M_ret, M_bind; simpl; [| done].
  by rewrite app_nil_r.
Qed.

Lemma bind_assoc {A B C : Type} (m : M A) (f : A -> M B) (g : B -> M C) :
  ((m ≫= f) ≫= g) = (m ≫= fun a => f a ≫= g).
Proof.
  destruct m as [t [a | msg]]; unfold mbind, M_bind; simpl; [| done].
  destruct (f a) as [t2 [b | msg]]; simpl; [| done].
  destruct (g b) as [t3 o]. by rewrite app_assoc.
Qed.

Lemma bind_ext {A B : Type} (m : M A) (f g : A -> M B) :
  (forall a, f a = g a) -> (m ≫= f) = (m ≫= g).
Proof.
  intros Hfg. destruct m as [t [a | msg]]; unfold mbind, M_bind; simpl; [| done].
  by rewrite Hfg.
Qed.

Lemma without_logs_bind {A B : Type} (m : M A) (f : A -> M B) :
  without_logs (m ≫= f) = (without_logs m ≫= fun a => without_logs (f a)).
Proof.
  destruct m as [t [a | msg]]; unfold without_logs, mbind, M_bind; simpl; [| done].
  destruct (f a) as [t2 o]; simpl. by rewrite filter_app.
Qed.

Lemma without_logs_ret {A : Type} (a : A) : without_logs (mret a : M A) = mret a.
Proof. done. Qed.

(** ** The policy loop of [auditResource] *)

Lemma auditResource_loop_app (E : Env) (ps1 ps2 : list policies.Policy)
    (resource : Unstructured) (policyreport : PolicyReport) :
  auditResource_loop E (ps1 ++ ps2) resource policyreport
  = (auditResource_loop E ps1 resource policyreport
       ≫= auditResource_loop E ps2 resource).
Proof.
  revert policyreport.
  induction ps1 as [| p ps1 IH]; intros policyreport; cbn [auditResource_loop app].
  - by rewrite bind_ret_l.
  - rewrite bind_assoc. apply bind_ext. intros policyreport'. apply IH.
Qed.

(** A policy that does not match, and whose match raises no error, leaves
    no trace in its iteration. *)
Lemma auditResource_body_excluded (E : Env) (p : policies.Policy)
    (resource : Unstructured) (policyreport : PolicyReport) :
  policyMatches E (policies.Policy_ p) resource = mret (false, None) ->
  auditResource_body E p resource policyreport = mret policyreport.
Proof. intros Hm. unfold auditResource_body. by rewrite Hm. Qed.

(** A policy whose match fails is logged twice and skipped. *)
Lemma auditResource_body_malformed (E : Env) (p : policies.Policy)
    (resource : Unstructured) (policyreport : PolicyReport) (err : error) :
  policyMatches E (policies.Policy_ p) resource
  = ([EvLog ErrorLevel [FErr err] "error creating label selector from policy"],
     Returned (false, Some err)) ->
  auditResource_body E p resource policyreport
  = ([EvLog ErrorLevel [FErr err] "error creating label selector from policy";
      EvLog ErrorLevel [FErr err] "error matching policy to resource"],
     Returned policyreport).
Proof. intros Hm. unfold auditResource_body. by rewrite Hm. Qed.

Lemma auditResource_skip (E : Env) (p : policies.Policy) (before after : list policies.Policy)
    (resource : Unstructured) :
  (forall policyreport, auditResource_body E p resource policyreport = mret policyreport) ->
  auditResource E (before ++ p :: after) resource
  = auditResource E (before ++ after) resource.
Proof.
  intros Hskip. unfold auditResource.
  rewrite !auditResource_loop_app. f_equal.
  apply bind_ext. intros policyreport. simpl.
  by rewrite Hskip, bind_ret_l.
Qed.

Lemma auditResource_skip_logs (E : Env) (p : policies.Policy)
    (before after : list policies.Policy) (resource : Unstructured) :
  (forall policyreport,
     without_logs (auditResource_body E p resource policyreport) = mret policyreport) ->
  without_logs (auditResource E (before ++ p :: after) resource)
  = without_logs (auditResource E (before ++ after) resource).
Proof.
  intros Hskip. unfold auditResource.
  rewrite !auditResource_loop_app, !bind_assoc.
  rewrite (without_logs_bind (auditResource_loop E before resource _)).
  rewrite (without_logs_bind (auditResource_loop E before resource _)).
  apply bind_ext. intros policyreport.
  cbn [auditResource_loop]. rewrite bind_assoc.
  rewrite (without_logs_bind (auditResource_body E p resource policyreport)).
  by rewrite Hskip, bind_ret_l.
Qed.

(** ** Claims on the policy matcher *)

(** C6: a policy without object selector matches every resource:
    [policyMatches] returns true and a nil error, and logs nothing, so the
    policy applies to the resource in the audit. *)
Theorem C6_no_selector_matches (E : Env) (p : policies.Policy) (resource : Unstructured) :
  policiesv1.GetObjectSelector (policies.Policy_ p) = None ->
  policyMatches E (policies.Policy_ p) resource = ([], Returned (true, None))
  /\ policy_applies E resource p = true.
Proof.
  intros Hnil. unfold policy_applies, policyMatches. rewrite Hnil. by split.
Qed.

Lemma C6_witness :
  policyMatches Examples.scenarioA (policies.Policy_ Examples.no_selector) Examples.pod1
  = ([], Returned (true, None))
  /\ policy_applies Examples.scenarioA Examples.pod1 Examples.no_selector = true.
Proof.
  apply (C6_no_selector_matches Examples.scenarioA Examples.no_selector Examples.pod1).
  reflexivity.
Defined.

(** C7: when the selector of a policy compiles and excludes the labels of a
    resource, [policyMatches] returns false and a nil error, and the audit
    of the resource runs as if the policy were not in the list: no request
    is sent to the policy server for the pair and no result is recorded. *)
Theorem C7_excluded_pair_is_not_evaluated (E : Env) (p : policies.Policy)
    (sel : LabelSelector) (selector : labels.Selector) (resource : Unstructured) :
  policiesv1.GetObjectSelector (policies.Policy_ p) = Some sel ->
  LabelSelectorAsSelector (labelSyntax E) (Some sel) = inl selector ->
  labels.Matches selector (GetLabels resource) = false ->
  policyMatches E (policies.Policy_ p) resource = ([], Returned (false, None))
  /\ (forall before after,
        auditResource E (before ++ p :: after) resource
        = auditResource E (before ++ after) resource)
  /\ filter is_post (trace (auditResource E [p] resource)) = [].
Proof.
  intros Hsel Hcompile Hexcluded.
  assert (Hm : policyMatches E (policies.Policy_ p) resource = mret (false, None)).
  { unfold policyMatches. rewrite Hsel, Hcompile, Hexcluded. done. }
  assert (Hskip : forall before after,
             auditResource E (before ++ p :: after) resource
             = auditResource E (before ++ after) resource).
  { intros before after. apply auditResource_skip. intros policyreport.
    by apply auditResource_body_excluded. }
  split; [exact Hm |]. split; [exact Hskip |].
  change [p] with ([] ++ p :: []). rewrite (Hskip [] []).
  unfold auditResource. simpl.
  by destruct (policyReportStore_CreateOrPatchPolicyReport E _).
Qed.

Lemma C7_witness :
  policyMatches Examples.scenarioA (policies.Policy_ Examples.web_only) Examples.pod2
  = ([], Returned (false, None))
  /\ (forall before after,
        auditResource Examples.scenarioA (before ++ Examples.web_only :: after) Examples.pod2
        = auditResource Examples.scenarioA (before ++ after) Examples.pod2)
  /\ filter is_post (trace (auditResource Examples.scenarioA [Examples.web_only] Examples.pod2))
     = [].
Proof.
  apply (C7_excluded_pair_is_not_evaluated Examples.scenarioA Examples.web_only
           {| MatchLabels := {[ "app" := "web" ]}; MatchExpressions := [] |}
           (labels.Internal [{| labels.key := "app"; labels.operator := labels.OpEquals;
                                labels.strValues := ["web"] |}])
           Examples.pod2).
  - reflexivity.
  - vm_compute. reflexivity.
  - vm_compute. reflexivity.
Defined.

(** C8: when the selector of a policy does not compile, [policyMatches]
    returns false together with the error of the compilation; the audit of
    the resource logs the error and otherwise runs as if the policy were not
    in the list: nothing is sent to the policy server for the pair, the
    other policies are audited, and the audit returns. *)
Theorem C8_malformed_selector_is_skipped (E : Env) (p : policies.Policy)
    (sel : LabelSelector) (err : error) (resource : Unstructured) :
  policiesv1.GetObjectSelector (policies.Policy_ p) = Some sel ->
  LabelSelectorAsSelector (labelSyntax E) (Some sel) = inr err ->
  policyMatches E (policies.Policy_ p) resource
  = ([EvLog ErrorLevel [FErr err] "error creating label selector from policy"],
     Returned (false, Some err))
  /\ (forall before after,
        without_logs (auditResource E (before ++ p :: after) resource)
        = without_logs (auditResource E (before ++ after) resource))
  /\ filter is_post (trace (auditResource E [p] resource)) = []
  /\ outcome (auditResource E [p] resource) = Returned tt.
Proof.
  intros Hsel Hcompile.
  assert (Hm : policyMatches E (policies.Policy_ p) resource
               = ([EvLog ErrorLevel [FErr err] "error creating label selector from policy"],
                  Returned (false, Some err))).
  { unfold policyMatches. rewrite Hsel, Hcompile. done. }
  split; [exact Hm |]. split.
  - intros before after. apply auditResource_skip_logs. intros policyreport.
    by rewrite (auditResource_body_malformed _ _ _ _ _ Hm).
  - unfold auditResource. simpl.
    rewrite (auditResource_body_malformed _ _ _ _ _ Hm). simpl.
    by destruct (policyReportStore_CreateOrPatchPolicyReport E _).
Qed.

Lemma C8_witness :
  exists err,
    policyMatches Examples.scenarioA (policies.Policy_ Examples.malformed) Examples.pod1
    = ([EvLog ErrorLevel [FErr err] "error creating label selector from policy"],
       Returned (false, Some err))
    /\ (forall before after,
          without_logs
            (auditResource Examples.scenarioA (before ++ Examples.malformed :: after)
               Examples.pod1)
          = without_logs (auditResource Examples.scenarioA (before ++ after) Examples.pod1))
    /\ filter is_post
         (trace (auditResource Examples.scenarioA [Examples.malformed] Examples.pod1)) = []
    /\ outcome (auditResource Examples.scenarioA [Examples.malformed] Examples.pod1)
       = Returned tt.
Proof.
  eexists.
  eapply (C8_malformed_selector_is_skipped Examples.scenarioA Examples.malformed).
  - reflexivity.
  - vm_compute. reflexivity.
Defined.

(** ** Claims on the cache of the report store *)

Lemma store_after_snoc (ops : list StoreOp) (op : StoreOp) :
  store_after (ops ++ [op]) = apply_op (store_after ops) op.
Proof. unfold store_after. by rewrite fold_left_app. Qed.

Lemma cached_snoc (ops : list StoreOp) (op : StoreOp) (scope : Scope) :
  cached (ops ++ [op]) scope = last_put (op :: rev ops) scope.
Proof. unfold cached. by rewrite rev_unit. Qed.

(** The namespaced map holds, for every namespace, the report that the
    history put last and did not remove. *)
Lemma namespaced_lookup_cached (ops : list StoreOp) (namespace : string) :
  Namespaced <$> (namespacedPolicyReports (store_after ops) !! namespace)
  = cached ops (NamespaceScope namespace).
Proof.
  induction ops as [| op ops IH] using rev_ind; [done |].
  rewrite store_after_snoc, cached_snoc.
  destruct op as [r | r | r | r | n |]; cbn [apply_op last_put fst];
    fold (cached ops (NamespaceScope namespace)); rewrite <- ?IH; clear IH;
    unfold AddPolicyReport, UpdatePolicyReport, AddClusterPolicyReport,
      UpdateClusterPolicyReport, RemovePolicyReport, RemoveAllNamespacedPolicyReports,
      GetPolicyReport; cbn [fst snd namespacedPolicyReports].
  - rewrite lookup_insert. case_bool_decide; case_decide; done.
  - rewrite lookup_insert. case_bool_decide; case_decide; done.
  - done.
  - done.
  - destruct (namespacedPolicyReports (store_after ops) !! n) as [r |] eqn:Hn;
      cbn [fst snd namespacedPolicyReports].
    + rewrite lookup_delete. case_bool_decide; case_decide; done.
    + case_bool_decide as Heq; [| done]. subst n. by rewrite Hn.
  - by rewrite lookup_empty.
Qed.

(** The cluster-wide report is the one put last, and the report of the
    constructor before the first put. *)
Lemma cluster_report_cached (ops : list StoreOp) :
  ClusterWide (clusterPolicyReport (store_after ops))
  = default (ClusterWide (NewClusterPolicyReport "clusterwide")) (cached ops ClusterScope).
Proof.
  induction ops as [| op ops IH] using rev_ind; [done |].
  rewrite store_after_snoc, cached_snoc.
  destruct op as [r | r | r | r | n |]; cbn [apply_op last_put];
    fold (cached ops ClusterScope); try exact IH; try done.
  unfold RemovePolicyReport.
  by destruct (GetPolicyReport (store_after ops) n).2.
Qed.

(** C9, as the code has it: after any history of calls on a new store,
    [GetPolicyReport] returns the report that was put last for the
    namespace and not removed since, with a nil error, and the zero report
    with the error "report not found" when there is none;
    [GetClusterPolicyReport] never returns an error: it returns the
    cluster-wide report that was put last, and before the first put the
    empty report "clusterwide" of the constructor. *)
Theorem C9_get_after_history (ops : list StoreOp) :
  (forall namespace,
     Get (store_after ops) (NamespaceScope namespace)
     = match cached ops (NamespaceScope namespace) with
       | Some r => (r, None)
       | None => (Namespaced PolicyReport_zero, Some (ErrMsg "report not found"))
       end)
  /\ Get (store_after ops) ClusterScope
     = (default (ClusterWide (NewClusterPolicyReport "clusterwide"))
          (cached ops ClusterScope), None).
Proof.
  split.
  - intros namespace. rewrite <- namespaced_lookup_cached.
    unfold Get, GetPolicyReport.
    by destruct (namespacedPolicyReports (store_after ops) !! namespace).
  - unfold Get, GetClusterPolicyReport. by rewrite cluster_report_cached.
Qed.

(** C9 as stated fails on the cluster-wide scope: on a new store nothing
    was put for it, and its getter returns a report and a nil error. *)
Lemma C9_counterexample :
  cached [] ClusterScope = None
  /\ Get (store_after []) ClusterScope
     = (ClusterWide (NewClusterPolicyReport "clusterwide"), None)
  /\ ~ (exists err, (Get (store_after []) ClusterScope).2 = Some err).
Proof.
  split; [reflexivity |]. split; [reflexivity |].
  intros [err Herr]. discriminate Herr.
Qed.

(** C10: [AddPolicyReport] and [UpdatePolicyReport] are the same operation:
    on every store and report they leave the same store and return nil; the
    report is stored under its namespace, over any report that was there,
    and nothing else changes. *)
Theorem C10_add_and_update_agree (s : PolicyReportStore) (r : PolicyReport) :
  AddPolicyReport s r = UpdatePolicyReport s r
  /\ (AddPolicyReport s r).2 = None
  /\ (UpdatePolicyReport s r).2 = None
  /\ namespacedPolicyReports (UpdatePolicyReport s r).1
     = <[GetNamespace r := r]> (namespacedPolicyReports s)
  /\ (GetPolicyReport (UpdatePolicyReport s r).1 (GetNamespace r) = (r, None))
  /\ (forall namespace,
        namespace <> GetNamespace r ->
        GetPolicyReport (UpdatePolicyReport s r).1 namespace = GetPolicyReport s namespace)
  /\ clusterPolicyReport (UpdatePolicyReport s r).1 = clusterPolicyReport s.
Proof.
  repeat split.
  - unfold GetPolicyReport, UpdatePolicyReport. cbn [fst namespacedPolicyReports].
    by rewrite lookup_insert_eq.
  - intros namespace Hne. unfold GetPolicyReport, UpdatePolicyReport.
    cbn [fst namespacedPolicyReports]. by rewrite lookup_insert_ne.
Qed.

(** ** Claims on the call of the policy server *)

(** [sendAdmissionReviewToPolicyServer] returns, and a nil response goes
    with every error. *)
Lemma send_returns (E : Env) (url : string) (review : AdmissionReview) :
  exists t answer err,
    sendAdmissionReviewToPolicyServer E url review = (t, Returned (answer, err))
    /\ (err = None <-> is_Some answer).
Proof.
  unfold sendAdmissionReviewToPolicyServer.
  destruct (json_Marshal E review) as [payload | e]; cbn.
  2: { eexists _, _, _. split; [done |]. split; [done | by intros [? ?]]. }
  destruct (httpClient_Do E url payload) as [res | e]; cbn.
  2: { eexists _, _, _. split; [done |]. split; [done | by intros [? ?]]. }
  destruct (Body res) as [body | e]; cbn.
  2: { eexists _, _, _. split; [done |]. split; [done | by intros [? ?]]. }
  case_bool_decide; cbn.
  { eexists _, _, _. split; [done |]. split; [done | by intros [? ?]]. }
  destruct (json_Unmarshal E body) as [answer | e]; cbn.
  - eexists _, _, _. split; [done |]. split; [by eauto | done].
  - eexists _, _, _. split; [done |]. split; [done | by intros [? ?]].
Qed.

(** C3, as the code has it: one call of [sendAdmissionReviewToPolicyServer]
    returns an error exactly when the request cannot be serialised, the
    transport fails, the status is not 200 or the body of the response
    cannot be deserialised; otherwise it returns the response parsed from
    the body, verdict included, and a nil error. *)
Theorem C3_send_error_iff (E : Env) (url : string) (review : AdmissionReview) :
  exists t answer err,
    sendAdmissionReviewToPolicyServer E url review = (t, Returned (answer, err))
    /\ (is_Some err <->
          request_not_serialised E review \/ transport_fails E url review
          \/ status_not_ok E url review \/ body_not_deserialised E url review)
    /\ (is_Some err -> answer = None)
    /\ (err = None -> exists a, answer = Some a /\ parsed_response E url review a).
Proof.
  unfold sendAdmissionReviewToPolicyServer, request_not_serialised, transport_fails,
    status_not_ok, body_not_deserialised, parsed_response.
  destruct (json_Marshal E review) as [payload | e] eqn:Hmarshal; cbn.
  2: { eexists _, _, _. split; [done |]. naive_solver. }
  destruct (httpClient_Do E url payload) as [res | e] eqn:Hdo; cbn.
  2: { eexists _, _, _. split; [done |]. naive_solver. }
  destruct (Body res) as [body | e] eqn:Hbody; cbn.
  2: { eexists _, _, _. split; [done |]. naive_solver. }
  case_bool_decide as Hstatus; cbn.
  { eexists _, _, _. split; [done |]. naive_solver. }
  destruct (json_Unmarshal E body) as [answer | e] eqn:Hparse; cbn.
  - eexists _, _, _. split; [done |]. split; [| split].
    + split; [by intros [? ?] |]. intros Hc. exfalso.
      destruct Hc as [(? & ?) | [(? & ? & [(? & ?) | (? & ? & ? & ?)])
                     | [(? & ? & ? & ? & ? & ? & ?) | (? & ? & ? & ? & ? & ? & ? & ? & ?)]]];
        congruence.
    + by intros [? ?].
    + intros _. naive_solver.
  - eexists _, _, _. split; [done |]. naive_solver.
Qed.

(** C3 as stated leaves one cause out: when the request cannot be
    serialised the call returns an error, although the transport was not
    used, no status was received and no body was there to deserialise. *)
Lemma C3_counterexample :
  let E := Examples.scenarioMarshal in
  let url := policies.PolicyServer Examples.no_selector in
  let review := newAdmissionReview Examples.pod1 in
  sendAdmissionReviewToPolicyServer E url review
  = ([], Returned (None, Some Examples.unserialisable))
  /\ ~ (transport_fails E url review \/ status_not_ok E url review
        \/ body_not_deserialised E url review).
Proof.
  split; [reflexivity |].
  intros [Hc | [Hc | Hc]].
  - destruct Hc as (p & Hp & _). discriminate Hp.
  - destruct Hc as (p & r & b & Hp & _). discriminate Hp.
  - destruct Hc as (p & r & b & e & Hp & _). discriminate Hp.
Qed.

(** ** Traces and outcomes of composed computations *)

Lemma trace_bind {A B : Type} (m : M A) (f : A -> M B) :
  trace (m ≫= f)
  = trace m ++ match outcome m with
               | Returned a => trace (f a)
               | Panicked _ => []
               end.
Proof.
  destruct m as [t [a | msg]]; unfold trace, outcome, mbind, M_bind; simpl.
  - by destruct (f a).
  - by rewrite app_nil_r.
Qed.

Lemma outcome_bind {A B : Type} (m : M A) (f : A -> M B) :
  outcome (m ≫= f)
  = match outcome m with
    | Returned a => outcome (f a)
    | Panicked msg => Panicked msg
    end.
Proof.
  destruct m as [t [a | msg]]; unfold trace, outcome, mbind, M_bind; simpl; [| done].
  by destruct (f a).
Qed.

Lemma stored_app (t1 t2 : list Event) : stored (t1 ++ t2) = stored t1 ++ stored t2.
Proof. apply omap_app. Qed.

Lemma stored_cons (e : Event) (t : list Event) :
  stored (e :: t)
  = match e with
    | EvCreateOrPatchPolicyReport r => r :: stored t
    | _ => stored t
    end.
Proof. by destruct e. Qed.

#[local] Arguments stored : simpl never.

Lemma policyMatches_returns (E : Env) (policy : policiesv1.Policy) (resource : Unstructured) :
  exists t matches err, policyMatches E policy resource = (t, Returned (matches, err))
                        /\ stored t = [].
Proof.
  unfold policyMatches. destruct (policiesv1.GetObjectSelector policy) as [sel |].
  - destruct (LabelSelectorAsSelector _ _) as [selector | err].
    + destruct (negb _); by eexists _, _, _.
    + by eexists _, _, _.
  - by eexists _, _, _.
Qed.

Lemma send_stores_nothing (E : Env) (url : string) (review : AdmissionReview) :
  stored (trace (sendAdmissionReviewToPolicyServer E url review)) = [].
Proof.
  unfold sendAdmissionReviewToPolicyServer. repeat (case_match; try done).
Qed.

(** One iteration hands nothing to the store, and adds one result when the
    policy applies and none when it does not. *)
Lemma auditResource_body_spec (E : Env) (p : policies.Policy) (resource : Unstructured)
    (policyreport : PolicyReport) :
  stored (trace (auditResource_body E p resource policyreport)) = []
  /\ match outcome (auditResource_body E p resource policyreport) with
     | Returned policyreport' =>
         if policy_applies E resource p
         then exists response errored,
                policyreport' = AddResultToPolicyReport policyreport (policies.Policy_ p)
                                  response errored
         else policyreport' = policyreport
     | Panicked _ => True
     end.
Proof.
  unfold auditResource_body, policy_applies.
  destruct (policyMatches_returns E (policies.Policy_ p) resource)
    as (t1 & matches & err1 & -> & Ht1).
  destruct (send_returns E (policies.PolicyServer p) (newAdmissionReview resource))
    as (t2 & answer & err2 & Hsend & Hnil).
  pose proof (send_stores_nothing E (policies.PolicyServer p) (newAdmissionReview resource))
    as Ht2.
  rewrite Hsend in *. clear Hsend. cbn in Ht2.
  assert (Hlog : stored (trace (match err1 with
                                | Some e => emit (EvLog ErrorLevel [FErr e]
                                                    "error matching policy to resource")
                                | None => mret tt
                                end)) = []) by (by destruct err1).
  destruct err1 as [e1 |], matches; cbn;
    rewrite ?stored_app, ?Ht1, ?app_nil_r, ?app_nil_l; try done.
  all: destruct err2 as [e2 |], answer as [[request [response |]] |]; cbn;
    repeat (rewrite ?stored_cons, ?stored_app, ?Ht1, ?Ht2; cbn);
    (split; [reflexivity | eauto]).
Qed.

Lemma auditResource_loop_spec (E : Env) (ps : list policies.Policy) (resource : Unstructured)
    (policyreport : PolicyReport) :
  stored (trace (auditResource_loop E ps resource policyreport)) = []
  /\ match outcome (auditResource_loop E ps resource policyreport) with
     | Returned policyreport' =>
         length (pr_Results policyreport')
         = (length (pr_Results policyreport)
            + length (filter (policy_applies E resource) ps))%nat
     | Panicked _ => True
     end.
Proof.
  revert policyreport.
  induction ps as [| p ps IH]; intros policyreport; cbn [auditResource_loop].
  - split; [done |]. cbn. lia.
  - rewrite trace_bind, outcome_bind, stored_app.
    destruct (auditResource_body_spec E p resource policyreport) as [Hstored Hbody].
    rewrite Hstored.
    destruct (outcome (auditResource_body E p resource policyreport))
      as [policyreport' | msg]; [| done].
    destruct (IH policyreport') as [IHstored IHresults]. split; [done |].
    destruct (outcome (auditResource_loop E ps resource policyreport'))
      as [policyreport'' | msg]; [| done].
    rewrite IHresults.
    destruct (policy_applies E resource p) eqn:Happlies.
    + rewrite filter_cons_True by (by rewrite Happlies).
      destruct Hbody as (response & errored & ->). cbn.
      rewrite length_app. cbn. lia.
    + rewrite filter_cons_False by (rewrite Happlies; cbn; tauto).
      subst policyreport'. done.
Qed.

Lemma auditResource_spec (E : Env) (ps : list policies.Policy) (resource : Unstructured) :
  auditResource E ps resource
  = match auditResource_loop E ps resource (NewPolicyReport resource) with
    | (t, Returned policyreport) => (t ++ handed_over E policyreport, Returned tt)
    | (t, Panicked msg) => (t, Panicked msg)
    end.
Proof.
  unfold auditResource, handed_over.
  destruct (auditResource_loop E ps resource (NewPolicyReport resource))
    as [t [policyreport | msg]]; [| reflexivity].
  unfold mbind, M_bind, emit, mret, M_ret.
  destruct (policyReportStore_CreateOrPatchPolicyReport E policyreport); reflexivity.
Qed.

Lemma stored_handed_over (E : Env) (policyreport : PolicyReport) :
  stored (handed_over E policyreport) = [policyreport].
Proof.
  unfold handed_over.
  by destruct (policyReportStore_CreateOrPatchPolicyReport E policyreport).
Qed.

(** An audit that returns has handed exactly one report to the store; an
    audit that panics has handed none. *)
Lemma auditResource_stored (E : Env) (ps : list policies.Policy) (resource : Unstructured) :
  length (stored (trace (auditResource E ps resource)))
  = match outcome (auditResource E ps resource) with
    | Returned _ => 1%nat
    | Panicked _ => 0%nat
    end.
Proof.
  rewrite auditResource_spec.
  pose proof (auditResource_loop_spec E ps resource (NewPolicyReport resource)) as [Hs _].
  destruct (auditResource_loop E ps resource (NewPolicyReport resource))
    as [t [policyreport | msg]]; cbn in *.
  - by rewrite stored_app, Hs, stored_handed_over.
  - by rewrite Hs.
Qed.

(** ** An error of the policy server *)

(** When the policy applies and the call of the policy server returns an
    error, the iteration panics: the response it reads is nil. *)
Lemma auditResource_body_evaluator_error (E : Env) (p : policies.Policy)
    (resource : Unstructured) (policyreport : PolicyReport) :
  policy_applies E resource p = true ->
  is_Some (outcome_error (sendAdmissionReviewToPolicyServer E (policies.PolicyServer p)
                            (newAdmissionReview resource))) ->
  outcome (auditResource_body E p resource policyreport) = Panicked nil_dereference.
Proof.
  unfold auditResource_body, policy_applies, outcome_error.
  destruct (policyMatches_returns E (policies.Policy_ p) resource)
    as (t1 & matches & err1 & -> & _).
  destruct (send_returns E (policies.PolicyServer p) (newAdmissionReview resource))
    as (t2 & answer & err2 & -> & Hnil).
  cbn. intros -> [e ->].
  destruct answer as [review |].
  { exfalso. destruct Hnil as [_ Hn]. by specialize (Hn (mk_is_Some _ _ eq_refl)). }
  by destruct err1.
Qed.

(** C1, on scenario B: the policy server times out on the pair of the
    policy without selector and pod1. The audit of pod1 logs the error and
    then panics on the nil response, before any result is recorded; the scan
    of the namespace ends in the same panic, with no report handed to the
    store and pod2 never audited. [auditClusterResource] panics alike. *)
Theorem C1_evaluator_error_panics :
  auditResource Examples.scenarioB [Examples.no_selector] Examples.pod1
  = ([EvPost "https://policy-server:8443/audit/no-selector"
        (String.list_byte_of_string "pod1");
      EvLog ErrorLevel
        [FErr Examples.timeout; FStr "admissionRequest name" "pod1";
         FStr "policy" "no-selector"; FStr "resource" "pod1"]
        "error sending AdmissionReview to PolicyServer"],
     Panicked nil_dereference)
  /\ outcome (ScanNamespace Examples.scenarioB "ns1") = Panicked nil_dereference
  /\ stored (trace (ScanNamespace Examples.scenarioB "ns1")) = []
  /\ length (filter is_post (trace (ScanNamespace Examples.scenarioB "ns1"))) = 1%nat
  /\ outcome (auditClusterResource Examples.scenarioB [Examples.no_selector] Examples.pod1)
     = Panicked nil_dereference.
Proof. repeat split; vm_compute; reflexivity. Qed.

(** ** Reports handed to the store by a scan *)

Lemma eachItem_audit (E : Env) (ps : list policies.Policy) (items : list RuntimeObject) :
  let fn := fun obj =>
              match obj with
              | ObjUnstructured resource => auditResource E ps resource;; mret None
              | ObjOther _ =>
                  mret (Some (ErrMsg
                    "failed to convert runtime.Object to *unstructured.Unstructured"))
              end in
  outcome (eachItem items fn) = Returned None ->
  length (stored (trace (eachItem items fn))) = length items.
Proof.
  intros fn. induction items as [| obj items IH]; [done |].
  cbn [eachItem]. rewrite trace_bind, outcome_bind, stored_app, length_app.
  destruct obj as [resource | kind]; [| done].
  cbn [fn]. rewrite trace_bind, outcome_bind, stored_app.
  pose proof (auditResource_stored E ps resource) as Hone.
  destruct (outcome (auditResource E ps resource)) as [[] | msg]; [| done].
  cbn. intros Hrest. rewrite app_nil_r, Hone, (IH Hrest). done.
Qed.

Lemma ScanNamespace_loop_stored (E : Env) (nsName : string)
    (byGVR : list (GroupVersionResource * list policies.Policy)) :
  outcome (ScanNamespace_loop E nsName byGVR) = Returned None ->
  length (stored (trace (ScanNamespace_loop E nsName byGVR)))
  = length (listed E nsName byGVR).
Proof.
  induction byGVR as [| [gvr ps] byGVR IH]; [done |].
  cbn [ScanNamespace_loop listed flat_map].
  destruct (k8sClient_GetResources E gvr nsName) as [pager | err]; [| done].
  rewrite trace_bind, outcome_bind. unfold EachListItem at 1 2 3.
  rewrite !trace_bind, !outcome_bind.
  pose proof (eachItem_audit E ps (pager_Items pager)) as Hitems. cbn zeta in Hitems.
  destruct (outcome (eachItem (pager_Items pager) _)) as [[e |] | msg]; [done | | done].
  specialize (Hitems eq_refl). cbn.
  destruct (pager_Err pager) as [e |]; [done |]. cbn.
  intros Hrest. rewrite app_nil_r, !stored_app, !length_app, Hitems, (IH Hrest). done.
Qed.

(** C2, as the code has it: the results of the audit of one resource, one
    for every policy that applies, are folded into one report of that
    resource, which is handed to the store exactly once, after the last
    policy; an audit that panics hands nothing over. A scan of a namespace
    that returns without error has handed over one report for every object
    listed. In scenario A (one policy without selector, two pods) the store
    receives two reports, one for each pod, with one result each. *)
Theorem C2_one_report_per_audited_resource :
  (forall E ps resource,
     match auditResource_loop E ps resource (NewPolicyReport resource) with
     | (t, Returned policyreport) =>
         auditResource E ps resource = (t ++ handed_over E policyreport, Returned tt)
         /\ stored t = []
         /\ stored (handed_over E policyreport) = [policyreport]
         /\ length (pr_Results policyreport)
            = length (filter (policy_applies E resource) ps)
     | (t, Panicked msg) =>
         auditResource E ps resource = (t, Panicked msg) /\ stored t = []
     end)
  /\ (forall E nsName,
        outcome (ScanNamespace E nsName) = Returned None ->
        exists policies,
          policiesClient_GetPoliciesForANamespace E nsName = inl policies
          /\ length (stored (trace (ScanNamespace E nsName)))
             = length (listed E nsName (policies.PoliciesByGVR policies)))
  /\ (exists r1 r2,
        stored (trace (ScanNamespace Examples.scenarioA "ns1")) = [r1; r2]
        /\ pr_Name r1 = "pod1" /\ length (pr_Results r1) = 1%nat
        /\ pr_Name r2 = "pod2" /\ length (pr_Results r2) = 1%nat).
Proof.
  split; [| split].
  - intros E ps resource.
    pose proof (auditResource_spec E ps resource) as Hspec.
    pose proof (auditResource_loop_spec E ps resource (NewPolicyReport resource))
      as [Hstored Hresults].
    destruct (auditResource_loop E ps resource (NewPolicyReport resource))
      as [t [policyreport | msg]]; cbn in Hstored, Hresults.
    + split; [done |]. split; [done |]. split; [apply stored_handed_over | done].
    + done.
  - intros E nsName. unfold ScanNamespace.
    rewrite trace_bind, outcome_bind. cbn [outcome emit snd trace fst].
    destruct (k8sClient_GetNamespace E nsName) as [err |]; [done |].
    destruct (policiesClient_GetPoliciesForANamespace E nsName) as [policies | err];
      [| done].
    rewrite trace_bind, outcome_bind. cbn [outcome emit snd trace fst].
    intros Hloop. exists policies. split; [done |].
    rewrite !stored_app. rewrite <- (ScanNamespace_loop_stored _ _ _ Hloop). done.
  - eexists _, _. repeat split.
Qed.

(** C2 as stated fails on scenario A: the store does not receive one
    report with two results, it receives two reports. *)
Lemma C2_counterexample :
  length (stored (trace (ScanNamespace Examples.scenarioA "ns1"))) = 2%nat
  /\ ~ (exists r, stored (trace (ScanNamespace Examples.scenarioA "ns1")) = [r]
                  /\ length (pr_Results r) = 2%nat).
Proof.
  split; [reflexivity |].
  intros (r & Hr & _). apply (f_equal length) in Hr. discriminate Hr.
Qed.

(** ** The scan of all namespaces *)

Lemma joined_errors_Join (err : option error) (e : error) :
  joined_errors (errors_Join [err; Some e]) = joined_errors err ++ joined e.
Proof. destruct err as [e0 |]; cbn; by rewrite app_nil_r. Qed.

Lemma ScanAllNamespaces_loop_spec (E : Env) (items : list string) (err0 : option error) :
  (forall nsName, nsName ∈ items -> scan_returns E nsName) ->
  exists err,
    ScanAllNamespaces_loop E items err0 = (concat (map (attempt E) items), Returned err)
    /\ joined_errors err
       = joined_errors err0 ++ concat (map joined (omap (scan_error E) items))
    /\ (err = None <-> err0 = None /\ omap (scan_error E) items = []).
Proof.
  revert err0. induction items as [| nsName items IH]; intros err0 Hreturns.
  - exists err0. cbn. rewrite app_nil_r. naive_solver.
  - assert (Hhead : scan_returns E nsName) by (apply Hreturns; left).
    assert (Htail : forall n, n ∈ items -> scan_returns E n)
      by (intros n Hn; apply Hreturns; by right).
    destruct Hhead as [e He].
    assert (Hse : scan_error E nsName = e) by (unfold scan_error; by rewrite He).
    assert (Hat : attempt E nsName
                  = trace (ScanNamespace E nsName)
                    ++ match e with
                       | Some e' => [EvLog ErrorLevel [FErr e'; FStr "ns" nsName]
                                       "error scanning namespace"]
                       | None => []
                       end) by (unfold attempt; by rewrite Hse).
    cbn [ScanAllNamespaces_loop map concat omap list_omap]. rewrite Hat, Hse. clear Hat Hse.
    unfold outcome, trace in *.
    destruct (ScanNamespace E nsName) as [t o]. cbn in He. subst o. cbn [fst snd].
    destruct e as [e |].
    + destruct (IH (errors_Join [err0; Some e]) Htail) as (err & Hloop & Hjoined & Hnil).
      exists err. unfold mbind, M_bind, emit. rewrite Hloop. split; [| split].
      * by rewrite <- !app_assoc.
      * rewrite Hjoined, joined_errors_Join. cbn. by rewrite <- !app_assoc.
      * split; [| by intros [_ ?]]. intros Herr.
        destruct Hnil as [Hn _]. destruct (Hn Herr) as [Hj _].
        by destruct err0.
    + destruct (IH err0 Htail) as (err & Hloop & Hjoined & Hnil).
      exists err. unfold mbind, M_bind. rewrite Hloop. split; [| split].
      * by rewrite app_nil_r.
      * done.
      * done.
Qed.

(** When the audited namespaces are listed and the scan of each of them
    returns, [ScanAllNamespaces] scans every namespace of the list in order,
    whether or not an earlier scan returned an error, logs each error, and
    returns the join of exactly the errors that the scans returned: nil when
    there was none. *)
Lemma ScanAllNamespaces_returning_scans (E : Env) (items : list string) :
  k8sClient_GetAuditedNamespaces E = (Some items, None) ->
  (forall nsName, nsName ∈ items -> scan_returns E nsName) ->
  exists err,
    ScanAllNamespaces E
    = (EvLog InfoLevel [] "all-namespaces scan started"
       :: concat (map (attempt E) items)
       ++ [EvLog InfoLevel [] "all-namespaces scan finished"],
       Returned err)
    /\ joined_errors err = concat (map joined (omap (scan_error E) items))
    /\ (err = None <-> omap (scan_error E) items = []).
Proof.
  intros Hlist Hreturns.
  destruct (ScanAllNamespaces_loop_spec E items None Hreturns) as (err & Hloop & Hjoined & Hnil).
  exists err. unfold ScanAllNamespaces. rewrite Hlist. cbn.
  unfold mbind, M_bind. rewrite Hloop. cbn. split; [done |]. split; [done |].
  naive_solver.
Qed.

(** Scenario D: the scan of bad-ns returns an error, ns2 is scanned all the
    same, and the result joins exactly the error of bad-ns. *)
Example ScanAllNamespaces_scenarioD :
  outcome (ScanAllNamespaces Examples.scenarioD)
  = Returned (Some (ErrJoin [Examples.bad_ns]))
  /\ map pr_Name (stored (trace (ScanAllNamespaces Examples.scenarioD)))
     = ["pod1"; "pod2"; "pod1"; "pod2"].
Proof. vm_compute. done. Qed.

(** A scan that panics ends the loop: the namespaces after it are not
    scanned, and the loop returns nothing. *)
Lemma ScanAllNamespaces_loop_panics (E : Env) (before after : list string)
    (nsName msg : string) (err0 : option error) :
  (forall n, n ∈ before -> scan_returns E n) ->
  outcome (ScanNamespace E nsName) = Panicked msg ->
  ScanAllNamespaces_loop E (before ++ nsName :: after) err0
  = (concat (map (attempt E) before) ++ trace (ScanNamespace E nsName), Panicked msg).
Proof.
  intros Hreturns Hpanic. revert err0.
  induction before as [| n before IH]; intros err0.
  - cbn [app map concat ScanAllNamespaces_loop]. unfold outcome, trace in *.
    destruct (ScanNamespace E nsName) as [t o]. cbn in Hpanic. subst o.
    done.
  - assert (Hhead : scan_returns E n) by (apply Hreturns; left).
    assert (Htail : forall m, m ∈ before -> scan_returns E m)
      by (intros m Hm; apply Hreturns; by right).
    destruct Hhead as [e He].
    assert (Hse : scan_error E n = e) by (unfold scan_error; by rewrite He).
    assert (Hat : attempt E n
                  = trace (ScanNamespace E n)
                    ++ match e with
                       | Some e' => [EvLog ErrorLevel [FErr e'; FStr "ns" n]
                                       "error scanning namespace"]
                       | None => []
                       end) by (unfold attempt; by rewrite Hse).
    cbn [app ScanAllNamespaces_loop map concat]. rewrite Hat. clear Hat Hse.
    specialize (IH Htail).
    set (tn := trace (ScanNamespace E nsName)) in *. clearbody tn.
    unfold outcome, trace in He |- *.
    destruct (ScanNamespace E n) as [t o]. cbn in He. subst o. cbn [fst snd].
    destruct e as [e |].
    + unfold mbind, M_bind, emit. rewrite IH. cbn. by rewrite <- ?app_assoc.
    + unfold mbind, M_bind. rewrite IH. cbn. by rewrite app_nil_r, <- ?app_assoc.
Qed.

(** C5: on two namespaces of which the first is evaluated by a policy
    server whose calls time out, the scan of the first namespace panics (the
    nil dereference after a failed evaluation) and [ScanAllNamespaces] panics
    with it: the second namespace, whose scan on its own returns nil and
    hands over two reports, is never started, no error is recorded or logged
    for the first, the log line of the end is not written, no report is
    handed over and no joined error is returned. The specification says that
    the failure is recorded and that the second namespace is still
    scanned. *)
Theorem C5_failed_scan_ends_all_scans :
  let E := MoreExamples.scenarioTwoNamespaces in
  k8sClient_GetAuditedNamespaces E = (Some ["ns1"; "ns2"], None)
  /\ outcome (ScanNamespace E "ns1") = Panicked nil_dereference
  /\ outcome (ScanNamespace E "ns2") = Returned None
  /\ map pr_Name (stored (trace (ScanNamespace E "ns2"))) = ["pod1"; "pod2"]
  /\ outcome (ScanAllNamespaces E) = Panicked nil_dereference
  /\ trace (ScanAllNamespaces E)
     = EvLog InfoLevel [] "all-namespaces scan started" :: trace (ScanNamespace E "ns1")
  /\ (EvLog InfoLevel [FStr "namespace" "ns2"] "namespace scan started"
      ∉ trace (ScanAllNamespaces E))
  /\ (forall e, EvLog ErrorLevel [FErr e; FStr "ns" "ns1"] "error scanning namespace"
                ∉ trace (ScanAllNamespaces E))
  /\ stored (trace (ScanAllNamespaces E)) = [].
Proof.
  cbn zeta. split_and!; try (vm_compute; reflexivity).
  - intros Hin. apply list_elem_of_In in Hin. vm_compute in Hin.
    repeat (destruct Hin as [Hin | Hin]; [discriminate Hin |]). exact Hin.
  - intros e Hin. apply list_elem_of_In in Hin. vm_compute in Hin.
    repeat (destruct Hin as [Hin | Hin]; [discriminate Hin |]). exact Hin.
Qed.

(** ** [Save] *)

Lemma updates_app (a b : list SaveEvent) : updates (a ++ b) = updates a ++ updates b.
Proof. apply omap_app. Qed.

Lemma creates_app (a b : list SaveEvent) : creates (a ++ b) = creates a ++ creates b.
Proof. apply omap_app. Qed.

Lemma written_back_app (a b : list SaveEvent) :
  written_back (a ++ b) = written_back a ++ written_back b.
Proof. apply omap_app. Qed.

Lemma SetResourceVersion_twice (r : PolicyReport) (v1 v2 : string) :
  SetResourceVersion (SetResourceVersion r v1) v2 = SetResourceVersion r v2.
Proof. done. Qed.

Lemma SetResourceVersion_same (r : PolicyReport) :
  SetResourceVersion r (GetResourceVersion r) = r.
Proof. by destruct r. Qed.

Lemma default_last_app {A : Type} (x : A) (l1 l2 : list A) :
  default x (last (l1 ++ l2)) = default (default x (last l1)) (last l2).
Proof. rewrite last_app. by destruct (last l2). Qed.

Lemma default_last_cons {A : Type} (x y : A) (l : list A) :
  default x (last (y :: l)) = default y (last l).
Proof. rewrite last_cons. by destruct (last l). Qed.

Lemma sent_with_version_only_app (r : PolicyReport) (a b : list SaveEvent) :
  sent_with_version_only r (a ++ b)
  <-> sent_with_version_only r a
      /\ sent_with_version_only (default r (last (written_back a))) b.
Proof.
  revert r. induction a as [| e a IH]; intros r; [cbn; tauto |].
  destruct e as [key res | sent after res | sent after res | lvl fields msg];
    cbn [app sent_with_version_only written_back omap list_omap];
    fold (written_back a); rewrite ?default_last_cons, IH; tauto.
Qed.

(** The steps of [RetryOnConflict], one at a time. *)
Lemma RetryOnConflict_loop_S {S : Type} (steps : nat) (lastErr : option error)
    (fn : S -> option error * S) (st : S) :
  RetryOnConflict_loop (Datatypes.S steps) lastErr fn st
  = match fn st with
    | (None, st') => (None, st')
    | (Some e, st') =>
        if IsConflict (Some e) then RetryOnConflict_loop steps (Some e) fn st'
        else (Some e, st')
    end.
Proof. cbn [RetryOnConflict_loop]. by destruct (fn st) as [[e |] st']. Qed.

(** One run of the closure is one attempt, made with the client on the
    server as it is. *)
Lemma Save_closure_attempt {W : Type} (c : Client W) (st : SaveState W) :
  exists evs,
    events (Save_closure c st).2 = events st ++ evs
    /\ UpdateAttempt (report st) evs (Save_closure c st).1 (report (Save_closure c st).2)
    /\ head evs
       = Some (SvGet (report_key (report st))
                 (client_Get c (report_key (report st)) (world st)).1)
    /\ (forall getObj w2,
          client_Get c (report_key (report st)) (world st) = (inl getObj, w2) ->
          let sent := SetResourceVersion (report st) (GetResourceVersion getObj) in
          evs !! 1%nat
          = Some (SvUpdate sent (client_Update c sent w2).1.1 (client_Update c sent w2).1.2)).
Proof.
  unfold Save_closure.
  destruct (client_Get c (report_key (report st)) (world st)) as [[getObj | err] w1].
  - cbn [report record_event world events].
    destruct (client_Update c _ w1) as [[after updateErr] w2] eqn:Hupdate.
    eexists [_; _]. cbn [fst snd events report record_event].
    split_and!.
    + by rewrite <- app_assoc.
    + apply Attempt_written.
    + done.
    + intros getObj' w2' [= <- <-]. cbn zeta. by rewrite Hupdate.
  - destruct (IsNotFound (Some err)) eqn:Hnf; eexists [_];
      cbn [fst snd events report record_event]; split_and!; try done.
    + by apply Attempt_gone.
    + by apply Attempt_unread.
Qed.

(** The retries of [Save] are the attempts of a reconciliation: the closure
    runs again exactly after a conflict, as long as the budget lasts. *)
Lemma RetryOnConflict_loop_attempts {W : Type} (c : Client W) (steps : nat)
    (lastErr : option error) (st : SaveState W) :
  exists rounds,
    events (RetryOnConflict_loop (S steps) lastErr (Save_closure c) st).2
    = events st ++ rounds
    /\ UpdateAttempts (S steps) (report st) rounds
         (RetryOnConflict_loop (S steps) lastErr (Save_closure c) st).1
         (report (RetryOnConflict_loop (S steps) lastErr (Save_closure c) st).2)
    /\ head rounds
       = Some (SvGet (report_key (report st))
                 (client_Get c (report_key (report st)) (world st)).1)
    /\ (forall getObj w2,
          client_Get c (report_key (report st)) (world st) = (inl getObj, w2) ->
          let sent := SetResourceVersion (report st) (GetResourceVersion getObj) in
          rounds !! 1%nat
          = Some (SvUpdate sent (client_Update c sent w2).1.1 (client_Update c sent w2).1.2)).
Proof.
  revert lastErr st. induction steps as [| steps IH]; intros lastErr st;
    rewrite RetryOnConflict_loop_S;
    destruct (Save_closure_attempt c st) as (evs & Hev & Hattempt & Hhead & Hsecond);
    destruct (Save_closure c st) as [[e |] st']; cbn [fst snd] in Hev, Hattempt.
  - destruct (IsConflict (Some e)) eqn:Hconflict; cbn [RetryOnConflict_loop fst snd];
      exists evs; split_and!; try done.
    + by apply Attempts_exhausted.
    + by apply Attempts_done.
  - exists evs. split_and!; try done. by apply Attempts_done.
  - destruct (IsConflict (Some e)) eqn:Hconflict.
    + destruct (IH (Some e) st') as (rounds & Hev' & Hattempts & _).
      exists (evs ++ rounds). split_and!.
      * by rewrite Hev', Hev, app_assoc.
      * by eapply Attempts_retry.
      * rewrite head_app. by rewrite Hhead.
      * intros getObj w2 Hget. apply lookup_app_l_Some. by apply Hsecond.
    + exists evs. cbn [fst snd]. split_and!; try done. by apply Attempts_done.
  - exists evs. split_and!; try done. by apply Attempts_done.
Qed.

(** What one attempt leaves in the events. *)
Lemma UpdateAttempt_facts (r r' : PolicyReport) (evs : list SaveEvent)
    (res : option error) :
  UpdateAttempt r evs res r' ->
  creates evs = []
  /\ Forall (fun e => match e with SvLog _ _ _ => False | _ => True end) evs
  /\ client_calls evs = evs
  /\ (length evs <= 2)%nat
  /\ (length (updates evs) <= 1)%nat
  /\ (forall u, u ∈ updates evs -> u.2 = res)
  /\ (forall read rest, tokens_fresh read (evs ++ rest) = tokens_fresh None rest)
  /\ sent_with_version_only r evs
  /\ r' = default r (last (written_back evs)).
Proof.
  destruct 1 as [err Hnf | err Hnf | getObj after res]; cbn; split_and!;
    try done; try lia; try (by repeat constructor).
  - intros u Hu. by apply elem_of_nil in Hu.
  - intros u Hu. by apply elem_of_nil in Hu.
  - intros u Hu. by apply list_elem_of_singleton in Hu as ->.
  - intros read rest. by rewrite bool_decide_true.
Qed.

(** What the attempts of one reconciliation leave in the events. *)
Lemma UpdateAttempts_facts (steps : nat) (r r' : PolicyReport) (rounds : list SaveEvent)
    (res : option error) :
  UpdateAttempts steps r rounds res r' ->
  creates rounds = []
  /\ Forall (fun e => match e with SvLog _ _ _ => False | _ => True end) rounds
  /\ client_calls rounds = rounds
  /\ (length rounds <= 2 * steps)%nat
  /\ (length (updates rounds) <= steps)%nat
  /\ (forall read rest, tokens_fresh read (rounds ++ rest) = tokens_fresh None rest)
  /\ Forall answered_with_conflict (removelast (updates rounds))
  /\ (length (updates rounds) = steps ->
      Forall answered_with_conflict (updates rounds) -> IsConflict res = true)
  /\ sent_with_version_only r rounds
  /\ r' = default r (last (written_back rounds)).
Proof.
  assert (Hshort : forall l : list (PolicyReport * option error),
             (length l <= 1)%nat -> removelast l = []).
  { intros [| u [| u' l]] Hl; [done | done | cbn in Hl; lia]. }
  induction 1 as [steps r r' evs res Hattempt Hconflict
                 | r r' evs res Hattempt Hconflict
                 | steps r r' r'' evs evs' res res' Hattempt Hconflict Hrest IH];
    destruct (UpdateAttempt_facts _ _ _ _ Hattempt)
      as (Hcreates & Hnolog & Hcalls & Hlen & Hupdates & Hres & Htokens & Hsent & Hreport).
  - split_and!; try done; try lia.
    + by rewrite Hshort.
    + intros Hl Hall. destruct (updates evs) as [| u l] eqn:Hu; [discriminate Hl |].
      apply Forall_cons in Hall as [Hu' _]. unfold answered_with_conflict in Hu'.
      rewrite (Hres u) in Hu' by left. congruence.
  - split_and!; try done; try lia. by rewrite Hshort.
  - destruct IH as (Hcreates' & Hnolog' & Hcalls' & Hlen' & Hupdates' & Htokens'
                    & Hremove' & Hexhausted' & Hsent' & Hreport').
    assert (Hall : Forall answered_with_conflict (updates evs)).
    { apply Forall_forall. intros u Hu. unfold answered_with_conflict.
      by rewrite (Hres u Hu). }
    rewrite updates_app, creates_app, written_back_app, length_app, !length_app.
    split_and!.
    + by rewrite Hcreates, Hcreates'.
    + by apply Forall_app.
    + unfold client_calls in *. by rewrite List.filter_app, Hcalls, Hcalls'.
    + lia.
    + lia.
    + intros read rest. by rewrite <- app_assoc, Htokens, Htokens'.
    + destruct (updates evs') as [| u l] eqn:Hu'.
      * rewrite app_nil_r. by rewrite Hshort.
      * rewrite removelast_app by done. by apply Forall_app.
    + intros Hl Hboth. apply Forall_app in Hboth as [_ Hboth].
      apply Hexhausted'; [lia | done].
    + apply sent_with_version_only_app. by rewrite <- Hreport.
    + by rewrite default_last_app, <- Hreport.
Qed.

(** The log lines at the end of [Save] are log lines only. *)
Lemma closing_logs_facts (retryErr : option error) (r : PolicyReport) :
  updates (closing_logs retryErr r) = []
  /\ creates (closing_logs retryErr r) = []
  /\ written_back (closing_logs retryErr r) = []
  /\ client_calls (closing_logs retryErr r) = []
  /\ (length (closing_logs retryErr r) <= 2)%nat
  /\ tokens_fresh None (closing_logs retryErr r) = true
  /\ (forall r0, sent_with_version_only r0 (closing_logs retryErr r))
  /\ (is_Some retryErr -> update_failure_logged (closing_logs retryErr r)).
Proof.
  destruct retryErr as [e |]; cbn; split_and!; try done; try lia.
  intros _. eexists. apply list_elem_of_here.
Qed.

(** The update branch of [Save]: the first [Get], the log line, the
    attempts, and the closing log lines; the result is nil. *)
Lemma Save_update_branch {W : Type} (c : Client W) (r : PolicyReport) (w : W) :
  let first := (client_Get c (report_key r) w).1 in
  let w1 := (client_Get c (report_key r) w).2 in
  IsNotFound (get_error first) = false ->
  exists rounds retryErr,
    (Save c r w).1 = None
    /\ events (Save c r w).2
       = [SvGet (report_key r) first; SvLog InfoLevel [] "updating policy report..."]
         ++ rounds ++ closing_logs retryErr (report (Save c r w).2)
    /\ UpdateAttempts DefaultRetry_Steps r rounds retryErr (report (Save c r w).2)
    /\ head rounds = Some (SvGet (report_key r) (client_Get c (report_key r) w1).1)
    /\ (forall getObj w2,
          client_Get c (report_key r) w1 = (inl getObj, w2) ->
          let sent := SetResourceVersion r (GetResourceVersion getObj) in
          rounds !! 1%nat
          = Some (SvUpdate sent (client_Update c sent w2).1.1 (client_Update c sent w2).1.2)).
Proof.
  cbn zeta. unfold Save.
  destruct (client_Get c (report_key r) w) as [first w1]. cbn [fst snd].
  fold (get_error first). intros Hnf. rewrite Hnf.
  unfold RetryOnConflict. change DefaultRetry_Steps with 5%nat.
  set (st2 := save_log _ _ _ _).
  destruct (RetryOnConflict_loop_attempts c 4 None st2)
    as (rounds & Hev & Hattempts & Hhead & Hsecond).
  destruct (RetryOnConflict_loop 5 None (Save_closure c) st2) as [retryErr st3].
  cbn [fst snd] in *.
  exists rounds, retryErr.
  assert (Hevents : events st2 = [SvGet (report_key r) first;
                                  SvLog InfoLevel [] "updating policy report..."]) by done.
  rewrite Hevents in Hev. clear Hevents.
  assert (Hreport : report st2 = r) by done. rewrite Hreport in *.
  assert (Hworld : world st2 = w1) by done. rewrite Hworld in *.
  unfold closing_logs, save_log, record_event.
  destruct retryErr as [e |]; cbn [events report world fst snd]; rewrite Hev;
    split_and!; try done; by rewrite <- ?app_assoc.
Qed.


(** [Save] against a server on which two faster writers cause two
    conflicts: the third update goes through. With seven of them the five
    attempts are used up, the failure is logged and [Save] returns nil. *)
Example Save_after_two_conflicts :
  let res := Save Examples.server_client Examples.report1
               {| Examples.persisted := Some Examples.report1;
                  Examples.version := 3; Examples.conflicts := 2 |} in
  res.1 = None
  /\ map (fun u => (pr_ResourceVersion u.1, IsConflict u.2)) (updates (events res.2))
     = [("3", true); ("4", true); ("5", false)]
  /\ Examples.persisted (world res.2) = Some (SetResourceVersion Examples.report1 "5")
  /\ report res.2 = SetResourceVersion Examples.report1 "6".
Proof. vm_compute. done. Qed.

Example Save_after_seven_conflicts :
  let res := Save Examples.server_client Examples.report1
               {| Examples.persisted := Some Examples.report1;
                  Examples.version := 3; Examples.conflicts := 7 |} in
  res.1 = None
  /\ map (fun u => (pr_ResourceVersion u.1, IsConflict u.2)) (updates (events res.2))
     = [("3", true); ("4", true); ("5", true); ("6", true); ("7", true)]
  /\ SvLog ErrorLevel [FStr "report name" "polr-ns-ns1"; FStr "report ns" "ns1"]
       "PolicyReport update failed" ∈ events res.2.
Proof.
  vm_compute. split; [done |]. split; [done |].
  do 12 apply list_elem_of_further. apply list_elem_of_here.
Qed.

Example Save_creates_when_absent :
  let res := Save Examples.server_client Examples.report2
               {| Examples.persisted := None; Examples.version := 0;
                  Examples.conflicts := 0 |} in
  res.1 = None
  /\ creates (events res.2) = [(Examples.report2, None)]
  /\ updates (events res.2) = []
  /\ Examples.persisted (world res.2) = Some Examples.report2
  /\ report res.2 = SetResourceVersion Examples.report2 "1".
Proof. vm_compute. done. Qed.

(** * Further properties of the report store *)

(** ** The cache *)

(** X1: [RemovePolicyReport] returns nil; afterwards the report of the
    namespace is not found, the reports of the other namespaces and the
    cluster-wide report are as before, and removing a namespace that has no
    report leaves the store as it is. *)
Theorem X1_remove_policy_report (s : PolicyReportStore) (namespace : string) :
  (RemovePolicyReport s namespace).2 = None
  /\ GetPolicyReport (RemovePolicyReport s namespace).1 namespace
     = (PolicyReport_zero, Some (ErrMsg "report not found"))
  /\ (forall other, other <> namespace ->
        GetPolicyReport (RemovePolicyReport s namespace).1 other = GetPolicyReport s other)
  /\ clusterPolicyReport (RemovePolicyReport s namespace).1 = clusterPolicyReport s
  /\ (namespacedPolicyReports s !! namespace = None ->
      (RemovePolicyReport s namespace).1 = s).
Proof.
  unfold RemovePolicyReport, GetPolicyReport.
  destruct (namespacedPolicyReports s !! namespace) as [r |] eqn:Hlookup;
    cbn [fst snd namespacedPolicyReports clusterPolicyReport].
  - rewrite lookup_delete_eq. split_and!; try done.
    intros other Hne. by rewrite lookup_delete_ne.
  - rewrite Hlookup. split_and!; done.
Qed.

(** [RemoveAllNamespacedPolicyReports] returns nil and empties the
    namespaced cache, whatever was cached; the cluster-wide report stays. *)
Lemma RemoveAllNamespacedPolicyReports_empties (s : PolicyReportStore) :
  (RemoveAllNamespacedPolicyReports s).2 = None
  /\ (forall namespace,
        GetPolicyReport (RemoveAllNamespacedPolicyReports s).1 namespace
        = (PolicyReport_zero, Some (ErrMsg "report not found")))
  /\ GetClusterPolicyReport (RemoveAllNamespacedPolicyReports s).1
     = GetClusterPolicyReport s.
Proof. by split_and!. Qed.

Lemma cluster_ops_only (ops : list StoreOp) (s s' : PolicyReportStore) :
  clusterPolicyReport s = clusterPolicyReport s' ->
  clusterPolicyReport (fold_left apply_op ops s)
  = clusterPolicyReport (fold_left apply_op (filter is_cluster_op ops) s').
Proof.
  revert s s'. induction ops as [| op ops IH]; intros s s' Hs; [done |].
  destruct op as [r | r | r | r | n |];
    rewrite ?filter_cons_True by done; rewrite ?filter_cons_False by (cbn; tauto);
    cbn [fold_left]; apply IH; try done.
  cbn. unfold RemovePolicyReport. by destruct (GetPolicyReport s n).2.
Qed.

Lemma namespaced_ops_only (ops : list StoreOp) (s s' : PolicyReportStore) :
  namespacedPolicyReports s = namespacedPolicyReports s' ->
  namespacedPolicyReports (fold_left apply_op ops s)
  = namespacedPolicyReports
      (fold_left apply_op (filter (fun op => negb (is_cluster_op op)) ops) s').
Proof.
  revert s s'. induction ops as [| op ops IH]; intros s s' Hs; [done |].
  destruct op as [r | r | r | r | n |];
    rewrite ?filter_cons_True by done; rewrite ?filter_cons_False by (cbn; tauto);
    cbn [fold_left]; apply IH; try done.
  - cbn. by rewrite Hs.
  - cbn. by rewrite Hs.
  - cbn. unfold RemovePolicyReport, GetPolicyReport. rewrite Hs.
    destruct (namespacedPolicyReports s' !! n); cbn; by rewrite ?Hs.
Qed.

(** X2: the two collections of the store are independent. After any
    history of calls on a new store, the cluster-wide report is what the
    calls on the cluster-wide report alone would have left, and the
    namespaced reports are what the calls on namespaced reports alone would
    have left. *)
Theorem X2_collections_are_independent (ops : list StoreOp) :
  clusterPolicyReport (store_after ops)
  = clusterPolicyReport (store_after (filter is_cluster_op ops))
  /\ namespacedPolicyReports (store_after ops)
     = namespacedPolicyReports
         (store_after (filter (fun op => negb (is_cluster_op op)) ops)).
Proof.
  split; [by apply cluster_ops_only | by apply namespaced_ops_only].
Qed.

(** [AddClusterPolicyReport] and [UpdateClusterPolicyReport] are the
    same operation: after any history, the report that either of them
    stores is the one that [GetClusterPolicyReport] returns next, with a nil
    error, and every [GetPolicyReport] answers as before the call. *)
Lemma cluster_report_round_trip (ops : list StoreOp) (r : ClusterPolicyReport) :
  AddClusterPolicyReport (store_after ops) r = UpdateClusterPolicyReport (store_after ops) r
  /\ store_after (ops ++ [OpAddClusterPolicyReport r])
     = store_after (ops ++ [OpUpdateClusterPolicyReport r])
  /\ Get (store_after (ops ++ [OpUpdateClusterPolicyReport r])) ClusterScope
     = (ClusterWide r, None)
  /\ (forall namespace,
        Get (store_after (ops ++ [OpUpdateClusterPolicyReport r])) (NamespaceScope namespace)
        = Get (store_after ops) (NamespaceScope namespace)).
Proof.
  rewrite !store_after_snoc. by split_and!.
Qed.

Lemma store_eq (s1 s2 : PolicyReportStore) :
  namespacedPolicyReports s1 = namespacedPolicyReports s2 ->
  clusterPolicyReport s1 = clusterPolicyReport s2 ->
  s1 = s2.
Proof. destruct s1, s2. cbn. by intros -> ->. Qed.

(** X3: adding two reports of the same namespace keeps the second one
    only: the store is the one that the second call alone gives (the cache
    replaces, it does not accumulate). *)
Theorem X3_add_replaces (s : PolicyReportStore) (r1 r2 : PolicyReport) :
  GetNamespace r1 = GetNamespace r2 ->
  (AddPolicyReport (AddPolicyReport s r1).1 r2).1 = (AddPolicyReport s r2).1.
Proof.
  intros Hns. apply store_eq; [| done].
  unfold AddPolicyReport. cbn [fst namespacedPolicyReports].
  rewrite Hns. apply insert_insert_eq.
Qed.

Lemma X3_witness :
  (AddPolicyReport (AddPolicyReport MockNewPolicyReportStore Examples.report1).1
     (SetResourceVersion Examples.report1 "2")).1
  = (AddPolicyReport MockNewPolicyReportStore (SetResourceVersion Examples.report1 "2")).1.
Proof.
  apply (X3_add_replaces MockNewPolicyReportStore Examples.report1
           (SetResourceVersion Examples.report1 "2")).
  reflexivity.
Defined.

(** X4: reports of different namespaces do not interfere: the two calls of
    [AddPolicyReport] commute, and a report that is added and then removed
    leaves the reports of the other namespaces as they were. *)
Theorem X4_namespaces_are_independent (s : PolicyReportStore) (r1 r2 : PolicyReport) :
  GetNamespace r1 <> GetNamespace r2 ->
  (AddPolicyReport (AddPolicyReport s r1).1 r2).1
  = (AddPolicyReport (AddPolicyReport s r2).1 r1).1
  /\ GetPolicyReport (AddPolicyReport (AddPolicyReport s r1).1 r2).1 (GetNamespace r1)
     = (r1, None)
  /\ GetPolicyReport
       (RemovePolicyReport (AddPolicyReport (AddPolicyReport s r1).1 r2).1
          (GetNamespace r2)).1 (GetNamespace r1)
     = (r1, None).
Proof.
  intros Hns. split_and!.
  - apply store_eq; [| done]. unfold AddPolicyReport. cbn [fst namespacedPolicyReports].
    by apply insert_insert_ne.
  - unfold GetPolicyReport, AddPolicyReport. cbn [fst namespacedPolicyReports].
    rewrite lookup_insert_ne by done. by rewrite lookup_insert_eq.
  - unfold RemovePolicyReport, GetPolicyReport, AddPolicyReport.
    cbn [fst snd namespacedPolicyReports]. rewrite lookup_insert_eq.
    cbn [fst snd namespacedPolicyReports].
    rewrite lookup_delete_ne by done.
    rewrite lookup_insert_ne by done. by rewrite lookup_insert_eq.
Qed.

Lemma X4_witness :
  (AddPolicyReport (AddPolicyReport MockNewPolicyReportStore Examples.report1).1
     Examples.report2).1
  = (AddPolicyReport (AddPolicyReport MockNewPolicyReportStore Examples.report2).1
       Examples.report1).1
  /\ GetPolicyReport
       (AddPolicyReport (AddPolicyReport MockNewPolicyReportStore Examples.report1).1
          Examples.report2).1 (GetNamespace Examples.report1)
     = (Examples.report1, None)
  /\ GetPolicyReport
       (RemovePolicyReport
          (AddPolicyReport (AddPolicyReport MockNewPolicyReportStore Examples.report1).1
             Examples.report2).1 (GetNamespace Examples.report2)).1
       (GetNamespace Examples.report1)
     = (Examples.report1, None).
Proof.
  apply (X4_namespaces_are_independent MockNewPolicyReportStore Examples.report1
           Examples.report2).
  vm_compute. discriminate.
Defined.

(** ** [Save]: the calls it makes and what it does to the report *)

(** X5: one call of [Save] makes at most eleven calls of the client: the
    first [Get], and then either one [Create] or at most
    [DefaultRetry_Steps] rounds of one [Get] and one [Update]; with its log
    calls it leaves at most fourteen events. *)
Theorem X5_save_calls_are_bounded {W : Type} (c : Client W) (r : PolicyReport) (w : W) :
  (length (client_calls (events (Save c r w).2)) <= 1 + 2 * DefaultRetry_Steps)%nat
  /\ (length (events (Save c r w).2) <= 14)%nat
  /\ (IsNotFound (get_error (client_Get c (report_key r) w).1) = true ->
      length (client_calls (events (Save c r w).2)) = 2%nat).
Proof.
  destruct (IsNotFound (get_error (client_Get c (report_key r) w).1)) eqn:Hnf.
  - unfold Save in *.
    destruct (client_Get c (report_key r) w) as [first w1]. cbn [fst snd] in *.
    fold (get_error first). rewrite Hnf.
    unfold save_log, record_event. cbn [world report events app].
    destruct (client_Create c r w1) as [[after [e |]] w2]; cbn; split_and!; (lia || done).
  - destruct (Save_update_branch c r w Hnf) as (rounds & retryErr & _ & Hevs & Hattempts & _).
    destruct (UpdateAttempts_facts _ _ _ _ _ Hattempts) as (_ & _ & Hcalls & Hlen & _).
    destruct (closing_logs_facts retryErr (report (Save c r w).2))
      as (_ & _ & _ & Hcc & Hcl & _).
    rewrite Hevs. unfold client_calls in *.
    rewrite !List.filter_app, Hcalls, Hcc, !length_app.
    unfold DefaultRetry_Steps in *. cbn. split_and!; (lia || done).
Qed.

(** When [Save] only sends the report behind the pointer with another
    version, and the client writes nothing but a version into it, the
    report differs from the first one in its version at most. *)
Lemma version_only_kept (r : PolicyReport) (evs : list SaveEvent) :
  sent_with_version_only r evs ->
  Forall version_only_written evs ->
  default r (last (written_back evs))
  = SetResourceVersion r (GetResourceVersion (default r (last (written_back evs)))).
Proof.
  revert r. induction evs as [| e evs IH]; intros r Hsent Hwritten.
  - cbn. by rewrite SetResourceVersion_same.
  - apply Forall_cons in Hwritten as [He Hwritten].
    destruct e as [key res | sent after res | sent after res | lvl fields msg];
      cbn [sent_with_version_only written_back omap list_omap version_only_written] in *;
      fold (written_back evs); try (by apply IH).
    + destruct Hsent as [-> Hsent]. rewrite default_last_cons.
      rewrite (IH after Hsent Hwritten) at 1. rewrite He.
      by rewrite SetResourceVersion_twice.
    + destruct Hsent as [Hs Hsent]. rewrite default_last_cons.
      rewrite (IH after Hsent Hwritten) at 1. rewrite He, Hs.
      by rewrite !SetResourceVersion_twice.
Qed.

(** X6: [Save] itself changes nothing in the report of its caller but the
    resource version. The creation is sent the report as it is, every
    update the report as the call before it has left it, with the version
    just read and nothing else changed; after [Save] the report is as the
    last creation or update has left it behind the pointer, and the report
    of the caller as it was when none was sent. So when the client writes
    nothing but a version into the report, the name, the namespace and the
    results are after [Save] as they were before. *)
Theorem X6_save_sets_the_version_only {W : Type} (c : Client W) (r : PolicyReport) (w : W) :
  let evs := events (Save c r w).2 in
  report (Save c r w).2 = default r (last (written_back evs))
  /\ sent_with_version_only r evs
  /\ (Forall version_only_written evs ->
      report (Save c r w).2
      = SetResourceVersion r (GetResourceVersion (report (Save c r w).2))).
Proof.
  cbn zeta.
  assert (Hboth : report (Save c r w).2
                  = default r (last (written_back (events (Save c r w).2)))
                  /\ sent_with_version_only r (events (Save c r w).2)).
  { destruct (IsNotFound (get_error (client_Get c (report_key r) w).1)) eqn:Hnf.
    - unfold Save in *.
      destruct (client_Get c (report_key r) w) as [first w1]. cbn [fst snd] in *.
      fold (get_error first). rewrite Hnf.
      unfold save_log, record_event. cbn [world report events app].
      by destruct (client_Create c r w1) as [[after [e |]] w2].
    - destruct (Save_update_branch c r w Hnf)
        as (rounds & retryErr & _ & Hevs & Hattempts & _).
      destruct (UpdateAttempts_facts _ _ _ _ _ Hattempts)
        as (_ & _ & _ & _ & _ & _ & _ & _ & Hsent & Hreport).
      destruct (closing_logs_facts retryErr (report (Save c r w).2))
        as (_ & _ & Hwb & _ & _ & _ & Hlogs & _).
      rewrite Hevs. rewrite !written_back_app, Hwb, app_nil_r.
      split; [done |].
      apply (sent_with_version_only_app r [_; _]). split; [done |].
      apply sent_with_version_only_app. split; [done |]. apply Hlogs. }
  destruct Hboth as [Hreport Hsent]. split_and!; try done.
  intros Hwritten. rewrite Hreport. by apply version_only_kept.
Qed.

Lemma X6_witness :
  let res := Save Examples.server_client Examples.report1
               {| Examples.persisted := Some Examples.report2; Examples.version := 3;
                  Examples.conflicts := 2 |} in
  Forall version_only_written (events res.2)
  /\ length (written_back (events res.2)) = 3%nat
  /\ report res.2 = SetResourceVersion Examples.report1 (GetResourceVersion (report res.2)).
Proof.
  cbn zeta.
  assert (Hwritten : Forall version_only_written
            (events (Save Examples.server_client Examples.report1
                       {| Examples.persisted := Some Examples.report2;
                          Examples.version := 3; Examples.conflicts := 2 |}).2))
    by (vm_compute; repeat constructor).
  split; [exact Hwritten |]. split; [vm_compute; reflexivity |].
  apply (X6_save_sets_the_version_only Examples.server_client Examples.report1).
  exact Hwritten.
Defined.

(** ** [Save] against a server with concurrent writers *)

(** One run of the closure on the server of the examples. *)
Lemma Save_closure_on_server (st : SaveState Examples.Server) (p : PolicyReport)
    (v k : nat) :
  world st = {| Examples.persisted := Some p; Examples.version := v;
                Examples.conflicts := k |} ->
  let report' := SetResourceVersion (report st) (pretty v) in
  Save_closure Examples.server_client st
  = match k with
    | O =>
        (None,
         {| world := {| Examples.persisted := Some report'; Examples.version := S v;
                        Examples.conflicts := 0 |};
            report := SetResourceVersion report' (pretty (S v));
            events := (events st
                       ++ [SvGet (report_key (report st))
                             (inl (SetResourceVersion p (pretty v)))])
                      ++ [SvUpdate report' (SetResourceVersion report' (pretty (S v)))
                            None] |})
    | S k' =>
        (Some Examples.conflict,
         {| world := {| Examples.persisted := Some p; Examples.version := S v;
                        Examples.conflicts := k' |};
            report := report';
            events := (events st
                       ++ [SvGet (report_key (report st))
                             (inl (SetResourceVersion p (pretty v)))])
                      ++ [SvUpdate report' report' (Some Examples.conflict)] |})
    end.
Proof.
  intros Hw. unfold Save_closure. rewrite Hw.
  cbn -[pretty]. destruct k as [| k']; cbn -[pretty]; [| done].
  by rewrite bool_decide_true.
Qed.

Lemma retry_on_server (steps : nat) :
  forall (k v : nat) (p : PolicyReport) (lastErr : option error)
         (st : SaveState Examples.Server),
    world st = {| Examples.persisted := Some p; Examples.version := v;
                  Examples.conflicts := k |} ->
    let res := RetryOnConflict_loop steps lastErr (Save_closure Examples.server_client) st in
    ((k < steps)%nat ->
       res.1 = None
       /\ world res.2
          = {| Examples.persisted :=
                 Some (SetResourceVersion (report st) (pretty (v + k)%nat));
               Examples.version := S (v + k); Examples.conflicts := 0 |}
       /\ length (updates (events res.2)) = (length (updates (events st)) + S k)%nat)
    /\ ((steps <= k)%nat ->
          res.1 = match steps with O => lastErr | S _ => Some Examples.conflict end
          /\ world res.2
             = {| Examples.persisted := Some p; Examples.version := (v + steps)%nat;
                  Examples.conflicts := (k - steps)%nat |}
          /\ length (updates (events res.2))
             = (length (updates (events st)) + steps)%nat).
Proof.
  induction steps as [| steps IH]; intros k v p lastErr st Hw; cbn zeta.
  - split; [lia |]. intros _. cbn [RetryOnConflict_loop fst snd].
    rewrite Hw, Nat.add_0_r, Nat.sub_0_r. split_and!; [done | done | lia].
  - cbn [RetryOnConflict_loop].
    rewrite (Save_closure_on_server st p v k Hw). cbn zeta.
    destruct k as [| k'].
    + split; [| lia]. intros _. cbn [fst snd world events].
      rewrite Nat.add_0_r, !updates_app, !length_app. split_and!; [done | done |].
      cbn. lia.
    + change (IsConflict (Some Examples.conflict)) with true. cbn iota.
      set (st' := {| world := _; report := _; events := _ |}).
      destruct (IH k' (S v) p (Some Examples.conflict) st' eq_refl) as [Hwin Hlose].
      cbn zeta in Hwin, Hlose.
      assert (Hup : length (updates (events st')) = S (length (updates (events st)))).
      { subst st'. cbn [events]. rewrite !updates_app, !length_app. cbn. lia. }
      split.
      * intros Hk. destruct Hwin as (Herr & Hworld & Hlen); [lia |].
        rewrite Herr, Hworld, Hlen, Hup. subst st'. cbn [report].
        rewrite SetResourceVersion_twice.
        replace (S v + k')%nat with (v + S k')%nat by lia. split_and!; [done | done | lia].
      * intros Hk. destruct Hlose as (Herr & Hworld & Hlen); [lia |].
        rewrite Herr, Hworld, Hlen, Hup.
        replace (S v + steps)%nat with (v + S steps)%nat by lia.
        replace (k' - steps)%nat with (S k' - S steps)%nat by lia.
        split_and!; [by destruct steps | done | lia].
Qed.

(** X7: on a server that holds a report and on which other writers cause
    the next [k] updates to meet a conflict, with [k] smaller than the number
    of attempts, [Save] returns nil after [k + 1] updates, logs no failure,
    and the server holds the report of the caller, under the version that
    the last [Get] has read. *)
Theorem X7_save_succeeds_after_conflicts (r p : PolicyReport) (v k : nat) :
  (k < DefaultRetry_Steps)%nat ->
  let res := Save Examples.server_client r
               {| Examples.persisted := Some p; Examples.version := v;
                  Examples.conflicts := k |} in
  res.1 = None
  /\ Examples.persisted (world res.2) = Some (SetResourceVersion r (pretty (v + k)%nat))
  /\ length (updates (events res.2)) = S k
  /\ ~ update_failure_logged (events res.2).
Proof.
  intros Hk. cbn zeta. unfold Save. cbn -[pretty RetryOnConflict DefaultRetry_Steps].
  unfold RetryOnConflict. change DefaultRetry_Steps with 5%nat in *.
  set (st2 := save_log _ _ _ _).
  destruct (retry_on_server 5 k v p None st2 eq_refl) as [Hwin _].
  cbn zeta in Hwin. destruct (Hwin Hk) as (Herr & Hworld & Hlen). clear Hwin.
  destruct (RetryOnConflict_loop_attempts Examples.server_client 4 None st2)
    as (new & Hev & Hattempts & _).
  destruct (UpdateAttempts_facts _ _ _ _ _ Hattempts) as (_ & Hnolog & _).
  destruct (RetryOnConflict_loop 5 None (Save_closure Examples.server_client) st2)
    as [retryErr st3].
  cbn [fst snd] in *. subst retryErr.
  unfold save_log, record_event. cbn [world events report fst snd].
  rewrite Hworld, updates_app, length_app, Hlen. cbn [Examples.persisted].
  split_and!; [done | done | cbn; lia |].
  intros [fields Hin]. rewrite Hev in Hin.
  apply elem_of_app in Hin as [Hin | Hin];
    [apply elem_of_app in Hin as [Hin | Hin] |].
  - subst st2. unfold save_log, record_event in Hin. cbn in Hin.
    apply elem_of_cons in Hin as [Hin | Hin]; [discriminate Hin |].
    apply list_elem_of_singleton in Hin. discriminate Hin.
  - rewrite Forall_forall in Hnolog. by apply Hnolog in Hin.
  - apply list_elem_of_singleton in Hin. discriminate Hin.
Qed.

Lemma X7_witness :
  let res := Save Examples.server_client Examples.report1
               {| Examples.persisted := Some Examples.report2; Examples.version := 3;
                  Examples.conflicts := 4 |} in
  res.1 = None
  /\ Examples.persisted (world res.2)
     = Some (SetResourceVersion Examples.report1 (pretty (3 + 4)%nat))
  /\ length (updates (events res.2)) = 5%nat
  /\ ~ update_failure_logged (events res.2).
Proof.
  apply (X7_save_succeeds_after_conflicts Examples.report1 Examples.report2 3 4).
  unfold DefaultRetry_Steps. lia.
Defined.

(** X8: on the same server, when at least as many updates meet a conflict
    as there are attempts, [Save] gives up after [DefaultRetry_Steps]
    updates: it logs the failure and returns nil, and the server still holds
    the report that it held. *)
Theorem X8_save_gives_up (r p : PolicyReport) (v k : nat) :
  (DefaultRetry_Steps <= k)%nat ->
  let res := Save Examples.server_client r
               {| Examples.persisted := Some p; Examples.version := v;
                  Examples.conflicts := k |} in
  res.1 = None
  /\ Examples.persisted (world res.2) = Some p
  /\ length (updates (events res.2)) = DefaultRetry_Steps
  /\ update_failure_logged (events res.2).
Proof.
  intros Hk. cbn zeta. unfold Save. cbn -[pretty RetryOnConflict DefaultRetry_Steps].
  unfold RetryOnConflict.
  set (st2 := save_log _ _ _ _).
  destruct (retry_on_server DefaultRetry_Steps k v p None st2 eq_refl) as [_ Hlose].
  cbn zeta in Hlose. destruct (Hlose Hk) as (Herr & Hworld & Hlen). clear Hlose.
  destruct (RetryOnConflict_loop DefaultRetry_Steps None
              (Save_closure Examples.server_client) st2) as [retryErr st3].
  cbn [fst snd] in *. cbn in Herr. subst retryErr. cbn iota.
  unfold save_log, record_event. cbn [world events report fst snd].
  rewrite Hworld, !updates_app, !length_app, Hlen. cbn [Examples.persisted].
  split_and!; [done | done | subst st2; cbn; reflexivity |].
  eexists. apply elem_of_app. left. apply elem_of_app. right. apply list_elem_of_here.
Qed.

Lemma X8_witness :
  let res := Save Examples.server_client Examples.report1
               {| Examples.persisted := Some Examples.report2; Examples.version := 3;
                  Examples.conflicts := 5 |} in
  res.1 = None
  /\ Examples.persisted (world res.2) = Some Examples.report2
  /\ length (updates (events res.2)) = DefaultRetry_Steps
  /\ update_failure_logged (events res.2).
Proof.
  apply (X8_save_gives_up Examples.report1 Examples.report2 3 5).
  unfold DefaultRetry_Steps. lia.
Defined.

(** * Further properties of the scanner *)

(** ** The outcome of an audit *)

Lemma auditResource_body_outcome (E : Env) (p : policies.Policy) (resource : Unstructured)
    (policyreport : PolicyReport) :
  outcome (auditResource_body E p resource policyreport)
  = if policy_applies E resource p
    then match verdict E resource p with
         | Some response =>
             Returned (AddResultToPolicyReport policyreport (policies.Policy_ p)
                         (Some response) false)
         | None => Panicked nil_dereference
         end
    else Returned policyreport.
Proof.
  unfold auditResource_body, policy_applies, verdict.
  destruct (policyMatches_returns E (policies.Policy_ p) resource)
    as (t1 & matches & err1 & -> & _).
  destruct (send_returns E (policies.PolicyServer p) (newAdmissionReview resource))
    as (t2 & answer & err2 & -> & Hnil).
  destruct err1 as [e1 |], matches; cbn; try done.
  all: destruct err2 as [e2 |], answer as [[request [response |]] |]; cbn; try done.
  all: exfalso; destruct Hnil as [Hn1 Hn2];
    first [ by specialize (Hn2 (mk_is_Some _ _ eq_refl))
          | by destruct (Hn1 eq_refl) ].
Qed.

Lemma append_results_app (r : PolicyReport) (rows1 rows2 : list PolicyReportResult) :
  append_results (append_results r rows1) rows2 = append_results r (rows1 ++ rows2).
Proof. unfold append_results. cbn. by rewrite app_assoc. Qed.

Lemma append_results_nil (r : PolicyReport) : append_results r [] = r.
Proof. destruct r. unfold append_results. cbn. by rewrite app_nil_r. Qed.

Lemma auditResource_loop_outcome (E : Env) (ps : list policies.Policy)
    (resource : Unstructured) (policyreport : PolicyReport) :
  outcome (auditResource_loop E ps resource policyreport)
  = if all_answered E resource ps
    then Returned (append_results policyreport (expected_results E resource ps))
    else Panicked nil_dereference.
Proof.
  revert policyreport.
  induction ps as [| p ps IH]; intros policyreport; cbn [auditResource_loop].
  - cbn. by rewrite append_results_nil.
  - rewrite outcome_bind, auditResource_body_outcome.
    unfold all_answered, expected_results in *. cbn [forallb].
    destruct (policy_applies E resource p) eqn:Happlies.
    + rewrite filter_cons_True by (by rewrite Happlies).
      destruct (verdict E resource p) as [response |] eqn:Hverdict; cbn; [| done].
      rewrite IH. destruct (forallb _ ps); [| done].
      unfold AddResultToPolicyReport. fold (append_results policyreport
        [newResult (policies.Policy_ p) (Some response) false]).
      by rewrite append_results_app, Hverdict.
    + rewrite filter_cons_False by (rewrite Happlies; cbn; tauto).
      cbn. apply IH.
Qed.

(** X9: the audit of a resource returns exactly when every policy that
    applies to the resource gets a verdict from the policy server; the
    report that goes to the store then holds one row for each of these
    policies, in their order, with the verdict and no error. In every other
    case the audit panics on a nil pointer and no report goes to the
    store. *)
Theorem X9_audit_outcome (E : Env) (ps : list policies.Policy) (resource : Unstructured) :
  (if all_answered E resource ps
   then outcome (auditResource E ps resource) = Returned tt
        /\ stored (trace (auditResource E ps resource))
           = [append_results (NewPolicyReport resource) (expected_results E resource ps)]
   else outcome (auditResource E ps resource) = Panicked nil_dereference
        /\ stored (trace (auditResource E ps resource)) = []).
Proof.
  pose proof (auditResource_loop_outcome E ps resource (NewPolicyReport resource)) as Hout.
  pose proof (auditResource_loop_spec E ps resource (NewPolicyReport resource)) as [Hs _].
  rewrite auditResource_spec.
  destruct (auditResource_loop E ps resource (NewPolicyReport resource))
    as [t [policyreport | msg]]; cbn in Hout, Hs;
    destruct (all_answered E resource ps); try done; simplify_eq.
  - split; [done |]. cbn. by rewrite stored_app, Hs, stored_handed_over.
  - split; [done |]. exact Hs.
Qed.

(** ** The requests of an audit *)

Lemma posted_app (t1 t2 : list Event) : posted (t1 ++ t2) = posted t1 ++ posted t2.
Proof. apply omap_app. Qed.

Lemma policyMatches_posts_nothing (E : Env) (policy : policiesv1.Policy)
    (resource : Unstructured) :
  exists t matches err,
    policyMatches E policy resource = (t, Returned (matches, err)) /\ posted t = [].
Proof.
  unfold policyMatches. destruct (policiesv1.GetObjectSelector policy) as [sel |].
  - destruct (LabelSelectorAsSelector _ _) as [selector | err].
    + destruct (negb _); by eexists _, _, _.
    + by eexists _, _, _.
  - by eexists _, _, _.
Qed.

(** A call of the policy server posts at most once, and has posted when it
    returns an answer. *)
Lemma send_posted (E : Env) (url : string) (review : AdmissionReview) :
  exists t answer err,
    sendAdmissionReviewToPolicyServer E url review = (t, Returned (answer, err))
    /\ (err = None <-> is_Some answer)
    /\ (posted t = [] \/ posted t = [url])
    /\ (is_Some answer -> posted t = [url]).
Proof.
  unfold sendAdmissionReviewToPolicyServer.
  destruct (json_Marshal E review) as [payload | e]; cbn.
  2: { eexists _, _, _. split; [done |]. split_and!; [split; [done | by intros [? ?]] | eauto | by intros [? ?]]. }
  destruct (httpClient_Do E url payload) as [res | e]; cbn.
  2: { eexists _, _, _. split; [done |]. split_and!; [split; [done | by intros [? ?]] | eauto | by intros [? ?]]. }
  destruct (Body res) as [body | e]; cbn.
  2: { eexists _, _, _. split; [done |]. split_and!; [split; [done | by intros [? ?]] | eauto | by intros [? ?]]. }
  case_bool_decide; cbn.
  { eexists _, _, _. split; [done |]. split_and!; [split; [done | by intros [? ?]] | eauto | by intros [? ?]]. }
  destruct (json_Unmarshal E body) as [answer | e]; cbn.
  - eexists _, _, _. split; [done |]. split_and!; [split; eauto | eauto | eauto].
  - eexists _, _, _. split; [done |]. split_and!; [split; [done | by intros [? ?]] | eauto | by intros [? ?]].
Qed.

(** One iteration posts to the server of its policy, once, when the policy
    applies, and to nobody otherwise; an iteration that panics may have
    posted or not. *)
Lemma auditResource_body_posted (E : Env) (p : policies.Policy) (resource : Unstructured)
    (policyreport : PolicyReport) :
  let expected := if policy_applies E resource p then [policies.PolicyServer p] else [] in
  match outcome (auditResource_body E p resource policyreport) with
  | Returned _ => posted (trace (auditResource_body E p resource policyreport)) = expected
  | Panicked _ =>
      posted (trace (auditResource_body E p resource policyreport)) `prefix_of` expected
  end.
Proof.
  unfold auditResource_body, policy_applies.
  destruct (policyMatches_posts_nothing E (policies.Policy_ p) resource)
    as (t1 & matches & err1 & -> & Ht1).
  destruct (send_posted E (policies.PolicyServer p) (newAdmissionReview resource))
    as (t2 & answer & err2 & -> & Hnil & Ht2 & Hanswer).
  destruct err1 as [e1 |], matches; cbn; rewrite ?posted_app, ?Ht1; cbn; try done.
  all: destruct err2 as [e2 |], answer as [[request [response |]] |]; cbn;
    rewrite ?posted_app; cbn; rewrite ?posted_app; cbn; rewrite ?app_nil_r.
  all: rewrite Ht1; cbn [app].
  all: try (rewrite Hanswer by (by eexists); done).
  all: destruct Ht2 as [-> | ->]; first [done | apply prefix_nil].
Qed.

Lemma auditResource_loop_posted (E : Env) (ps : list policies.Policy)
    (resource : Unstructured) (policyreport : PolicyReport) :
  let expected := map policies.PolicyServer (filter (policy_applies E resource) ps) in
  match outcome (auditResource_loop E ps resource policyreport) with
  | Returned _ => posted (trace (auditResource_loop E ps resource policyreport)) = expected
  | Panicked _ =>
      posted (trace (auditResource_loop E ps resource policyreport)) `prefix_of` expected
  end.
Proof.
  cbn zeta. revert policyreport.
  induction ps as [| p ps IH]; intros policyreport; cbn [auditResource_loop]; [done |].
  rewrite trace_bind, outcome_bind, posted_app.
  pose proof (auditResource_body_posted E p resource policyreport) as Hbody.
  cbn zeta in Hbody.
  assert (Hfilter : map policies.PolicyServer (filter (policy_applies E resource) (p :: ps))
                    = (if policy_applies E resource p then [policies.PolicyServer p] else [])
                      ++ map policies.PolicyServer (filter (policy_applies E resource) ps)).
  { destruct (policy_applies E resource p) eqn:Happlies.
    - by rewrite filter_cons_True by (by rewrite Happlies).
    - by rewrite filter_cons_False by (rewrite Happlies; cbn; tauto). }
  rewrite Hfilter. clear Hfilter.
  destruct (outcome (auditResource_body E p resource policyreport))
    as [policyreport' | msg].
  - rewrite Hbody. specialize (IH policyreport').
    destruct (outcome (auditResource_loop E ps resource policyreport')).
    + by rewrite IH.
    + by apply prefix_app.
  - rewrite app_nil_r. by apply prefix_app_r.
Qed.

(** X10: an audit that returns has sent exactly one request for every
    policy that applies to the resource, to the server of that policy and in
    the order of the policies, and none for the others; an audit that panics
    has sent a first part of these requests. So no audit sends more requests
    than there are policies that apply. *)
Theorem X10_requests_of_an_audit (E : Env) (ps : list policies.Policy)
    (resource : Unstructured) :
  let expected := map policies.PolicyServer (filter (policy_applies E resource) ps) in
  match outcome (auditResource E ps resource) with
  | Returned _ => posted (trace (auditResource E ps resource)) = expected
  | Panicked _ => posted (trace (auditResource E ps resource)) `prefix_of` expected
  end
  /\ (length (posted (trace (auditResource E ps resource)))
      <= length (filter (policy_applies E resource) ps))%nat.
Proof.
  cbn zeta.
  pose proof (auditResource_loop_posted E ps resource (NewPolicyReport resource)) as Hloop.
  cbn zeta in Hloop. rewrite auditResource_spec.
  assert (Hhand : forall r, posted (handed_over E r) = []).
  { intros r. unfold handed_over.
    by destruct (policyReportStore_CreateOrPatchPolicyReport E r). }
  destruct (auditResource_loop E ps resource (NewPolicyReport resource))
    as [t [policyreport | msg]]; cbn [outcome trace fst snd] in *.
  - rewrite posted_app, Hhand, app_nil_r, Hloop. split; [done |].
    by rewrite length_map.
  - split; [done |]. apply prefix_length in Hloop. by rewrite length_map in Hloop.
Qed.

(** ** Errors of the report store *)

Lemma auditResource_loop_with_store (E : Env) (store : PolicyReport -> option error)
    (ps : list policies.Policy) (resource : Unstructured) (policyreport : PolicyReport) :
  auditResource_loop (with_store E store) ps resource policyreport
  = auditResource_loop E ps resource policyreport.
Proof.
  revert policyreport. induction ps as [| p ps IH]; intros policyreport; [done |].
  cbn [auditResource_loop].
  change (auditResource_body (with_store E store) p resource policyreport)
    with (auditResource_body E p resource policyreport).
  apply bind_ext. intros policyreport'. apply IH.
Qed.

Lemma without_logs_handed_over (E : Env) (t : list Event) (policyreport : PolicyReport) :
  without_logs ((t ++ handed_over E policyreport, Returned tt) : M unit)
  = (filter (fun e => is_log e = false) t ++ [EvCreateOrPatchPolicyReport policyreport],
     Returned tt).
Proof.
  unfold without_logs, handed_over. cbn [fst snd]. rewrite filter_app.
  by destruct (policyReportStore_CreateOrPatchPolicyReport E policyreport).
Qed.

Lemma auditResource_with_store (E : Env) (store : PolicyReport -> option error)
    (ps : list policies.Policy) (resource : Unstructured) :
  without_logs (auditResource (with_store E store) ps resource)
  = without_logs (auditResource E ps resource).
Proof.
  rewrite !auditResource_spec, auditResource_loop_with_store.
  destruct (auditResource_loop E ps resource (NewPolicyReport resource))
    as [t [policyreport | msg]]; [| done].
  by rewrite !without_logs_handed_over.
Qed.

Lemma without_logs_eachItem (items : list RuntimeObject)
    (f g : RuntimeObject -> M (option error)) :
  (forall obj, without_logs (f obj) = without_logs (g obj)) ->
  without_logs (eachItem items f) = without_logs (eachItem items g).
Proof.
  intros Hfg. induction items as [| obj items IH]; [done |].
  cbn [eachItem]. rewrite !without_logs_bind, Hfg.
  apply bind_ext. by intros [e |].
Qed.

Lemma ScanNamespace_loop_with_store (E : Env) (store : PolicyReport -> option error)
    (nsName : string) (byGVR : list (GroupVersionResource * list policies.Policy)) :
  without_logs (ScanNamespace_loop (with_store E store) nsName byGVR)
  = without_logs (ScanNamespace_loop E nsName byGVR).
Proof.
  induction byGVR as [| [gvr ps] byGVR IH]; [done |].
  cbn [ScanNamespace_loop].
  change (k8sClient_GetResources (with_store E store) gvr nsName)
    with (k8sClient_GetResources E gvr nsName).
  destruct (k8sClient_GetResources E gvr nsName) as [pager | err]; [| done].
  rewrite !without_logs_bind. unfold EachListItem. rewrite !without_logs_bind.
  rewrite (without_logs_eachItem (pager_Items pager) _
             (fun obj =>
                match obj with
                | ObjUnstructured resource => auditResource E ps resource;; mret None
                | ObjOther _ =>
                    mret (Some (ErrMsg
                      "failed to convert runtime.Object to *unstructured.Unstructured"))
                end)).
  - rewrite !bind_assoc. apply bind_ext. intros [e |]; [done |].
    apply bind_ext. intros [e |]; [done | exact IH].
  - intros [resource | kind]; [| done].
    by rewrite !without_logs_bind, auditResource_with_store.
Qed.

(** X11: an error of the report store changes nothing in a scan but its
    log: with any other store, the scan of a namespace sends the same
    requests, hands over the same reports in the same order and ends in the
    same way, with the same error if it returns one. *)
Theorem X11_store_errors_are_only_logged (E : Env) (store : PolicyReport -> option error)
    (nsName : string) :
  without_logs (ScanNamespace (with_store E store) nsName)
  = without_logs (ScanNamespace E nsName).
Proof.
  unfold ScanNamespace. rewrite !without_logs_bind. apply bind_ext. intros [].
  change (k8sClient_GetNamespace (with_store E store) nsName)
    with (k8sClient_GetNamespace E nsName).
  destruct (k8sClient_GetNamespace E nsName) as [err |]; [done |].
  change (policiesClient_GetPoliciesForANamespace (with_store E store) nsName)
    with (policiesClient_GetPoliciesForANamespace E nsName).
  destruct (policiesClient_GetPoliciesForANamespace E nsName) as [policies | err]; [| done].
  rewrite !without_logs_bind. apply bind_ext. intros [].
  apply ScanNamespace_loop_with_store.
Qed.

(** ** The errors that a scan returns *)

Lemma eachItem_error (E : Env) (ps : list policies.Policy) (items : list RuntimeObject)
    (e : error) :
  let fn := fun obj =>
              match obj with
              | ObjUnstructured resource => auditResource E ps resource;; mret None
              | ObjOther _ =>
                  mret (Some (ErrMsg
                    "failed to convert runtime.Object to *unstructured.Unstructured"))
              end in
  outcome (eachItem items fn) = Returned (Some e) ->
  e = conversion_error /\ existsb is_other items = true.
Proof.
  intros fn. induction items as [| obj items IH]; [done |].
  cbn [eachItem existsb]. rewrite outcome_bind.
  destruct obj as [resource | kind]; cbn [fn is_other orb].
  - rewrite outcome_bind.
    destruct (outcome (auditResource E ps resource)) as [[] | msg]; [| done].
    cbn. exact IH.
  - cbn. intros [= <-]. done.
Qed.

Lemma ScanNamespace_loop_error (E : Env) (nsName : string)
    (byGVR : list (GroupVersionResource * list policies.Policy)) (e : error) :
  outcome (ScanNamespace_loop E nsName byGVR) = Returned (Some e) ->
  e ∈ listing_errors E nsName byGVR.
Proof.
  induction byGVR as [| [gvr ps] byGVR IH]; [done |].
  cbn [ScanNamespace_loop listing_errors flat_map]. fold (listing_errors E nsName byGVR).
  destruct (k8sClient_GetResources E gvr nsName) as [pager | err].
  - rewrite outcome_bind. unfold EachListItem. rewrite outcome_bind.
    pose proof (eachItem_error E ps (pager_Items pager)) as Hitems. cbn zeta in Hitems.
    destruct (outcome (eachItem (pager_Items pager) _)) as [[e' |] | msg]; [| | done].
    + cbn. intros [= <-]. destruct (Hitems e' eq_refl) as [-> ->].
      apply elem_of_app. left. apply list_elem_of_here.
    + cbn. destruct (pager_Err pager) as [e' |]; cbn.
      * intros [= <-]. apply elem_of_app. left. apply elem_of_app. right.
        apply list_elem_of_here.
      * intros Hrest. apply elem_of_app. right. by apply IH.
  - cbn. intros [= <-]. apply list_elem_of_here.
Qed.

(** X12: the only errors that the scan of a namespace returns are errors
    of the enumeration: that the namespace cannot be read, that its policies
    cannot be fetched, that the resources of a type cannot be listed, or
    that a listed object is not of the type that the scan expects. An error
    of the policy server or of the report store is never returned. *)
Theorem X12_scan_returns_enumeration_errors (E : Env) (nsName : string) (e : error) :
  outcome (ScanNamespace E nsName) = Returned (Some e) ->
  e ∈ enumeration_errors E nsName.
Proof.
  unfold ScanNamespace, enumeration_errors. rewrite outcome_bind. cbn [outcome emit snd].
  destruct (k8sClient_GetNamespace E nsName) as [err |].
  - cbn. intros [= <-]. apply list_elem_of_here.
  - destruct (policiesClient_GetPoliciesForANamespace E nsName) as [policies | err].
    + rewrite outcome_bind. cbn [outcome emit snd option_list app].
      apply ScanNamespace_loop_error.
    + cbn. intros [= <-]. apply list_elem_of_here.
Qed.

Lemma X12_witness : Examples.bad_ns ∈ enumeration_errors Examples.scenarioD "bad-ns".
Proof.
  apply (X12_scan_returns_enumeration_errors Examples.scenarioD "bad-ns" Examples.bad_ns).
  reflexivity.
Defined.

(** ** The audit of a cluster-wide resource *)

Lemma stored_cluster_app (t1 t2 : list Event) :
  stored_cluster (t1 ++ t2) = stored_cluster t1 ++ stored_cluster t2.
Proof. apply omap_app. Qed.

Lemma audit_bodies_agree (E : Env) (p : policies.Policy) (resource : Unstructured)
    (policyreport : PolicyReport) (clusterPolicyReport : ClusterPolicyReport) :
  cpr_Results clusterPolicyReport = pr_Results policyreport ->
  agree (auditResource_body E p resource policyreport)
    (auditClusterResource_body E p resource clusterPolicyReport) clusterPolicyReport.
Proof.
  intros Hrows. unfold agree, auditResource_body, auditClusterResource_body.
  destruct (policyMatches E (policies.Policy_ p) resource) as [t1 [[matches err1] | msg1]]
    eqn:Hmatch.
  2: { destruct (policyMatches_returns E (policies.Policy_ p) resource)
         as (? & ? & ? & ? & _). congruence. }
  destruct (sendAdmissionReviewToPolicyServer E (policies.PolicyServer p)
              (newAdmissionReview resource)) as [t2 [[answer err2] | msg2]] eqn:Hsend.
  2: { destruct (send_returns E (policies.PolicyServer p) (newAdmissionReview resource))
         as (? & ? & ? & ? & _). congruence. }
  assert (Ht1 : stored t1 = [] /\ stored_cluster t1 = []).
  { revert Hmatch. unfold policyMatches. repeat case_match; by intros [= <- _ _]. }
  assert (Ht2 : stored t2 = [] /\ stored_cluster t2 = []).
  { revert Hsend. unfold sendAdmissionReviewToPolicyServer.
    repeat case_match; by intros [= <- _ _]. }
  destruct Ht1 as [Hs1 Hc1], Ht2 as [Hs2 Hc2].
  destruct err1 as [e1 |], matches; cbn;
    rewrite ?stored_app, ?stored_cluster_app, ?posted_app, ?Hs1, ?Hc1; cbn; try done.
  all: destruct err2 as [e2 |], answer as [[request [response |]] |]; cbn;
    repeat (rewrite ?stored_cons, ?stored_app, ?stored_cluster_app, ?posted_app,
              ?Hs1, ?Hc1, ?Hs2, ?Hc2; cbn);
    rewrite ?Hrows; done.
Qed.

Lemma audit_loops_agree (E : Env) (ps : list policies.Policy) (resource : Unstructured)
    (policyreport : PolicyReport) (clusterPolicyReport : ClusterPolicyReport) :
  cpr_Results clusterPolicyReport = pr_Results policyreport ->
  agree (auditResource_loop E ps resource policyreport)
    (auditClusterResource_loop E ps resource clusterPolicyReport) clusterPolicyReport.
Proof.
  revert policyreport clusterPolicyReport.
  induction ps as [| p ps IH]; intros policyreport clusterPolicyReport Hrows.
  - by unfold agree.
  - cbn [auditResource_loop auditClusterResource_loop]. unfold agree.
    rewrite !trace_bind, !outcome_bind.
    destruct (audit_bodies_agree E p resource policyreport clusterPolicyReport Hrows)
      as (Hp & Hc1 & Hc2 & Hs & Hout).
    destruct (outcome (auditResource_body E p resource policyreport)) as [r | msg],
      (outcome (auditClusterResource_body E p resource clusterPolicyReport))
        as [c | msgc]; try done.
    + destruct Hout as (Hrows' & Hname & Hversion).
      destruct (IH r c Hrows') as (Hp' & Hc1' & Hc2' & Hs' & Hout').
      rewrite !posted_app, !stored_cluster_app, !stored_app, Hp, Hp', Hc1, Hc1', Hc2, Hc2',
        Hs, Hs'.
      split_and!; try done.
      destruct (outcome (auditResource_loop E ps resource r)),
        (outcome (auditClusterResource_loop E ps resource c)); try done.
      destruct Hout' as (? & ? & ?). split_and!; congruence.
    + rewrite !app_nil_r. done.
Qed.

(** The audit of a cluster-wide resource and the audit of a namespaced
    resource are the same audit. *)
Lemma audits_agree (E : Env) (ps : list policies.Policy) (resource : Unstructured) :
  posted (trace (auditClusterResource E ps resource))
  = posted (trace (auditResource E ps resource))
  /\ outcome (auditClusterResource E ps resource) = outcome (auditResource E ps resource)
  /\ map cpr_Results (stored_cluster (trace (auditClusterResource E ps resource)))
     = map pr_Results (stored (trace (auditResource E ps resource)))
  /\ Forall (fun c => cpr_Name c = u_Name resource)
       (stored_cluster (trace (auditClusterResource E ps resource)))
  /\ stored (trace (auditClusterResource E ps resource)) = [].
Proof.
  destruct (audit_loops_agree E ps resource (NewPolicyReport resource)
              (NewClusterPolicyReport (u_Name resource)) eq_refl)
    as (Hp & Hc1 & Hc2 & Hs & Hout).
  pose proof (auditResource_loop_spec E ps resource (NewPolicyReport resource)) as [Hs' _].
  unfold auditClusterResource, auditResource.
  rewrite !trace_bind, !outcome_bind, !posted_app, !stored_cluster_app, !stored_app,
    Hp, Hc1, Hs, Hs'.
  destruct (outcome (auditResource_loop E ps resource (NewPolicyReport resource)))
    as [r | msg],
    (outcome (auditClusterResource_loop E ps resource
                (NewClusterPolicyReport (u_Name resource)))) as [c | msgc]; try done.
  - destruct Hout as (Hrows & Hname & _).
    destruct (policyReportStore_CreateOrPatchPolicyReport E r),
      (policyReportStore_CreateOrPatchClusterPolicyReport E c); cbn;
      rewrite Hrows; split_and!; try done; by repeat constructor.
  - cbn. subst msgc. split_and!; try done.
Qed.

(** X13: [auditClusterResource] audits like [auditResource]: for the same
    policies and resource it sends the same requests and ends in the same
    way, panic included, and the cluster-wide report that it hands to the
    store, named after the resource, holds the rows of the namespaced
    report. It hands over no namespaced report. *)
Theorem X13_cluster_audit_agrees (E : Env) (ps : list policies.Policy)
    (resource : Unstructured) :
  posted (trace (auditClusterResource E ps resource))
  = posted (trace (auditResource E ps resource))
  /\ outcome (auditClusterResource E ps resource) = outcome (auditResource E ps resource)
  /\ map cpr_Results (stored_cluster (trace (auditClusterResource E ps resource)))
     = map pr_Results (stored (trace (auditResource E ps resource)))
  /\ Forall (fun c => cpr_Name c = u_Name resource)
       (stored_cluster (trace (auditClusterResource E ps resource)))
  /\ stored (trace (auditClusterResource E ps resource)) = [].
Proof. apply audits_agree. Qed.

(** ** The scan of the cluster-wide resources *)

#[local] Arguments stored_cluster : simpl never.

Lemma auditClusterResource_stored (E : Env) (ps : list policies.Policy)
    (resource : Unstructured) :
  length (stored_cluster (trace (auditClusterResource E ps resource)))
  = match outcome (auditClusterResource E ps resource) with
    | Returned _ => 1%nat
    | Panicked _ => 0%nat
    end.
Proof.
  destruct (audits_agree E ps resource) as (_ & -> & Hrows & _).
  apply (f_equal length) in Hrows. rewrite !length_map in Hrows. rewrite Hrows.
  apply auditResource_stored.
Qed.

Lemma eachItem_audit_cluster (E : Env) (ps : list policies.Policy)
    (items : list RuntimeObject) :
  let fn := fun obj =>
              match obj with
              | ObjUnstructured resource => auditClusterResource E ps resource;; mret None
              | ObjOther _ =>
                  mret (Some (ErrMsg
                    "failed to convert runtime.Object to *unstructured.Unstructured"))
              end in
  outcome (eachItem items fn) = Returned None ->
  length (stored_cluster (trace (eachItem items fn))) = length items.
Proof.
  intros fn. induction items as [| obj items IH]; [done |].
  cbn [eachItem]. rewrite trace_bind, outcome_bind, stored_cluster_app, length_app.
  destruct obj as [resource | kind]; [| done].
  cbn [fn]. rewrite trace_bind, outcome_bind, stored_cluster_app.
  pose proof (auditClusterResource_stored E ps resource) as Hone.
  destruct (outcome (auditClusterResource E ps resource)) as [[] | msg]; [| done].
  cbn. intros Hrest. rewrite app_nil_r, Hone, (IH Hrest). done.
Qed.

Lemma ScanClusterWideResources_loop_stored (E : Env)
    (byGVR : list (GroupVersionResource * list policies.Policy)) :
  outcome (ScanClusterWideResources_loop E byGVR) = Returned None ->
  length (stored_cluster (trace (ScanClusterWideResources_loop E byGVR)))
  = length (listed E "" byGVR).
Proof.
  induction byGVR as [| [gvr ps] byGVR IH]; [done |].
  cbn [ScanClusterWideResources_loop listed flat_map].
  destruct (k8sClient_GetResources E gvr "") as [pager | err]; [| done].
  rewrite trace_bind, outcome_bind. unfold EachListItem at 1 2 3.
  rewrite !trace_bind, !outcome_bind.
  pose proof (eachItem_audit_cluster E ps (pager_Items pager)) as Hitems.
  cbn zeta in Hitems.
  destruct (outcome (eachItem (pager_Items pager) _)) as [[e |] | msg]; [done | | done].
  specialize (Hitems eq_refl). cbn.
  destruct (pager_Err pager) as [e |]; [done |]. cbn.
  intros Hrest.
  rewrite app_nil_r, !stored_cluster_app, !length_app, Hitems, (IH Hrest). done.
Qed.

(** X14: a scan of the cluster-wide resources that returns without error
    has handed to the store one cluster-wide report for every object that
    the listings of the cluster-wide resource types hold, queried with the
    empty namespace. With no cluster-wide policy there is no listing, and no
    report is handed over at all. *)
Theorem X14_cluster_scan_reports (E : Env) :
  outcome (ScanClusterWideResources E) = Returned None ->
  exists policies,
    policiesClient_GetClusterWidePolicies E = inl policies
    /\ length (stored_cluster (trace (ScanClusterWideResources E)))
       = length (listed E "" (policies.PoliciesByGVR policies))
    /\ (policies.PoliciesByGVR policies = [] ->
        stored_cluster (trace (ScanClusterWideResources E)) = []
        /\ posted (trace (ScanClusterWideResources E)) = []).
Proof.
  unfold ScanClusterWideResources.
  rewrite trace_bind, outcome_bind. cbn [outcome emit snd trace fst].
  destruct (policiesClient_GetClusterWidePolicies E) as [policies | err]; [| done].
  rewrite trace_bind, outcome_bind. cbn [outcome emit snd trace fst].
  rewrite trace_bind, outcome_bind.
  destruct (outcome (ScanClusterWideResources_loop E (policies.PoliciesByGVR policies)))
    as [[e |] | msg] eqn:Hloop; [done | | done].
  intros _. exists policies. split; [done |]. split.
  - rewrite !stored_cluster_app.
    rewrite <- (ScanClusterWideResources_loop_stored _ _ Hloop).
    assert (Hlogs : forall lvl fields msg, stored_cluster [EvLog lvl fields msg] = [])
      by done.
    by rewrite !Hlogs, app_nil_r.
  - intros Hempty. rewrite Hempty. done.
Qed.

Lemma X14_witness :
  map cpr_Name (stored_cluster (trace (ScanClusterWideResources MoreExamples.scenarioCluster)))
  = ["ns1"; "ns2"]
  /\ length (posted (trace (ScanClusterWideResources MoreExamples.scenarioCluster))) = 2%nat
  /\ exists policies,
       policiesClient_GetClusterWidePolicies MoreExamples.scenarioCluster = inl policies
       /\ length (stored_cluster (trace (ScanClusterWideResources MoreExamples.scenarioCluster)))
          = length (listed MoreExamples.scenarioCluster "" (policies.PoliciesByGVR policies))
       /\ (policies.PoliciesByGVR policies = [] ->
           stored_cluster (trace (ScanClusterWideResources MoreExamples.scenarioCluster)) = []
           /\ posted (trace (ScanClusterWideResources MoreExamples.scenarioCluster)) = []).
Proof.
  split; [vm_compute; reflexivity |]. split; [vm_compute; reflexivity |].
  apply (X14_cluster_scan_reports MoreExamples.scenarioCluster). vm_compute. reflexivity.
Defined.

(** ** The listing of the namespaces *)

(** [ScanAllNamespaces] on a listing that holds a list: the loop, between
    the log lines of the start and, when the loop returns, of the end. *)
Lemma ScanAllNamespaces_listed (E : Env) (items : list string) (listErr : option error) :
  k8sClient_GetAuditedNamespaces E = (Some items, listErr) ->
  ScanAllNamespaces E
  = (EvLog InfoLevel [] "all-namespaces scan started"
     :: match listErr with
        | Some e => [EvLog ErrorLevel [FErr e] "error scanning all namespaces"]
        | None => []
        end
     ++ trace (ScanAllNamespaces_loop E items listErr)
     ++ match outcome (ScanAllNamespaces_loop E items listErr) with
        | Returned _ => [EvLog InfoLevel [] "all-namespaces scan finished"]
        | Panicked _ => []
        end,
     outcome (ScanAllNamespaces_loop E items listErr)).
Proof.
  intros Hlist. unfold ScanAllNamespaces. rewrite Hlist. unfold outcome, trace.
  destruct listErr as [e |]; cbn; unfold mbind, M_bind;
    destruct (ScanAllNamespaces_loop E items _) as [t [err | msg]]; cbn;
    by rewrite ?app_nil_r.
Qed.

(** The loop returns only when every scan has returned. *)
Lemma ScanAllNamespaces_loop_returned (E : Env) (items : list string)
    (err0 err : option error) :
  outcome (ScanAllNamespaces_loop E items err0) = Returned err ->
  forall nsName, nsName ∈ items -> scan_returns E nsName.
Proof.
  revert err0. induction items as [| n items IH]; intros err0 Hret nsName Hin.
  - by apply elem_of_nil in Hin.
  - cbn [ScanAllNamespaces_loop] in Hret. rewrite outcome_bind in Hret.
    destruct (outcome (ScanNamespace E n)) as [e |msg] eqn:Hn; [| done].
    apply elem_of_cons in Hin as [-> | Hin]; [by exists e |].
    destruct e as [e |].
    + rewrite outcome_bind in Hret. cbn in Hret. by eapply IH.
    + by eapply IH.
Qed.

Lemma attempts_without_logs (E : Env) (items : list string) :
  filter (fun e => is_log e = false) (concat (map (attempt E) items))
  = filter (fun e => is_log e = false)
      (concat (map (fun n => trace (ScanNamespace E n)) items)).
Proof.
  induction items as [| n items IH]; [done |].
  cbn [map concat]. rewrite !filter_app, IH. unfold attempt at 1.
  rewrite filter_app. destruct (scan_error E n); cbn; by rewrite ?app_nil_r.
Qed.

(** X15: when the listing of the audited namespaces returns an error
    together with a list, [ScanAllNamespaces] logs the error and scans the
    namespaces of the list in order. When every scan returns, the call
    returns the error of the listing joined with the errors of the scans
    (the error of the listing as it is when no scan returned one). When a
    scan panics, the call panics with it: the namespaces after it are not
    scanned and nothing is returned. Whenever the call returns, every scan
    has returned and the result starts with the error of the listing: it is
    never lost. *)
Theorem X15_listing_error_is_kept (E : Env) (items : list string)
    (listErr : option error) :
  k8sClient_GetAuditedNamespaces E = (Some items, listErr) ->
  ((forall nsName, nsName ∈ items -> scan_returns E nsName) ->
   exists err,
     outcome (ScanAllNamespaces E) = Returned err
     /\ joined_errors err
        = joined_errors listErr ++ concat (map joined (omap (scan_error E) items))
     /\ (err = None <-> listErr = None /\ omap (scan_error E) items = [])
     /\ (omap (scan_error E) items = [] -> err = listErr)
     /\ filter (fun e => is_log e = false) (trace (ScanAllNamespaces E))
        = filter (fun e => is_log e = false)
            (concat (map (fun nsName => trace (ScanNamespace E nsName)) items)))
  /\ (forall before nsName after msg,
        items = before ++ nsName :: after ->
        (forall n, n ∈ before -> scan_returns E n) ->
        outcome (ScanNamespace E nsName) = Panicked msg ->
        outcome (ScanAllNamespaces E) = Panicked msg
        /\ filter (fun e => is_log e = false) (trace (ScanAllNamespaces E))
           = filter (fun e => is_log e = false)
               (concat (map (fun n => trace (ScanNamespace E n)) (before ++ [nsName]))))
  /\ (forall err,
        outcome (ScanAllNamespaces E) = Returned err ->
        (forall nsName, nsName ∈ items -> scan_returns E nsName)
        /\ joined_errors listErr `prefix_of` joined_errors err).
Proof.
  intros Hlist.
  assert (Hloop : forall items' err0,
             (forall nsName, nsName ∈ items' -> scan_returns E nsName) ->
             omap (scan_error E) items' = [] ->
             outcome (ScanAllNamespaces_loop E items' err0) = Returned err0).
  { induction items' as [| n items' IH]; intros err0 Hret Hnone; [done |].
    cbn [ScanAllNamespaces_loop]. rewrite outcome_bind.
    cbn [omap list_omap] in Hnone. unfold scan_error in Hnone at 1.
    destruct (Hret n) as [e He]; [left |]. rewrite He in *.
    destruct e as [e |]; [done |]. apply IH; [| done].
    intros m Hm. apply Hret. by right. }
  assert (Hlogs : forall e : option error,
             filter (fun e => is_log e = false)
               match e with
               | Some e' => [EvLog ErrorLevel [FErr e'] "error scanning all namespaces"]
               | None => []
               end = []) by (by intros [e' |]).
  rewrite (ScanAllNamespaces_listed E items listErr Hlist). cbn [outcome trace fst snd].
  assert (Hreturning : (forall nsName, nsName ∈ items -> scan_returns E nsName) ->
            exists err,
              ScanAllNamespaces_loop E items listErr
              = (concat (map (attempt E) items), Returned err)
              /\ joined_errors err
                 = joined_errors listErr ++ concat (map joined (omap (scan_error E) items))
              /\ (err = None <-> listErr = None /\ omap (scan_error E) items = [])
              /\ (omap (scan_error E) items = [] -> err = listErr)).
  { intros Hreturns.
    destruct (ScanAllNamespaces_loop_spec E items listErr Hreturns)
      as (err & Hspec & Hjoined & Hnil).
    exists err. split_and!; try done.
    intros Hnone. specialize (Hloop items listErr Hreturns Hnone).
    rewrite Hspec in Hloop. cbn in Hloop. congruence. }
  split_and!.
  - intros Hreturns. destruct (Hreturning Hreturns) as (err & Hspec & Hjoined & Hnil & Hsame).
    exists err. rewrite Hspec. cbn [outcome trace fst snd]. split_and!; try done.
    rewrite filter_cons_False by (cbn; congruence).
    rewrite !filter_app, Hlogs, attempts_without_logs. cbn. by rewrite app_nil_r.
  - intros before nsName after msg -> Hreturns Hpanic.
    rewrite (ScanAllNamespaces_loop_panics E before after nsName msg listErr Hreturns Hpanic).
    cbn [outcome trace fst snd]. split; [done |].
    rewrite filter_cons_False by (cbn; congruence).
    rewrite !filter_app, Hlogs, attempts_without_logs, map_app, concat_app, filter_app.
    cbn. by rewrite !app_nil_r.
  - intros err Hret.
    pose proof (ScanAllNamespaces_loop_returned E items listErr err Hret) as Hreturns.
    split; [done |].
    destruct (Hreturning Hreturns) as (err' & Hspec & Hjoined & _).
    rewrite Hspec in Hret. cbn in Hret. injection Hret as ->.
    rewrite Hjoined. by eexists.
Qed.

Lemma X15_witness :
  exists err,
    outcome (ScanAllNamespaces MoreExamples.scenarioListing) = Returned err
    /\ joined_errors err
       = joined_errors (Some MoreExamples.listing_failed)
         ++ concat (map joined (omap (scan_error MoreExamples.scenarioListing)
                                  ["ns1"; "bad-ns"]))
    /\ (err = None <->
        Some MoreExamples.listing_failed = None
        /\ omap (scan_error MoreExamples.scenarioListing) ["ns1"; "bad-ns"] = [])
    /\ (omap (scan_error MoreExamples.scenarioListing) ["ns1"; "bad-ns"] = [] ->
        err = Some MoreExamples.listing_failed)
    /\ filter (fun e => is_log e = false)
         (trace (ScanAllNamespaces MoreExamples.scenarioListing))
       = filter (fun e => is_log e = false)
           (concat (map (fun nsName => trace (ScanNamespace MoreExamples.scenarioListing
                                                nsName)) ["ns1"; "bad-ns"])).
Proof.
  apply (proj1 (X15_listing_error_is_kept MoreExamples.scenarioListing ["ns1"; "bad-ns"]
                  (Some MoreExamples.listing_failed) eq_refl)).
  intros nsName Hin. unfold scan_returns.
  apply list_elem_of_In in Hin. simpl in Hin.
  destruct Hin as [<- | [<- | []]]; eexists; vm_compute; reflexivity.
Defined.

(** * Properties of the log package *)

Section log_properties.
Import logconfig.

Lemma Level_Set_cases (l : Level) (level : string) :
  Level_Set l level
  = if bool_decide (level ∈ GetSupportedValues)
    then ({| value := level |}, None)
    else (l, Some (ErrMsg "supported values: [trace debug info warn error fatal]")).
Proof.
  case_bool_decide as Hin.
  - unfold GetSupportedValues in Hin.
    repeat (apply elem_of_cons in Hin as [-> | Hin]; [reflexivity |]).
    by apply elem_of_nil in Hin.
  - unfold Level_Set, GetSupportedValues in *. cbn [Level_Set_loop].
    rewrite !bool_decide_false by (intros ->; apply Hin; set_solver).
    reflexivity.
Qed.

(** X16: [Set] accepts exactly the six supported values. An accepted value
    becomes the value of the flag and [Set] returns nil; any other string
    leaves the flag as it was and [Set] returns an error that lists the
    supported values. *)
Theorem X16_level_set (l : Level) (level : string) :
  ((Level_Set l level).2 = None <-> level ∈ GetSupportedValues)
  /\ (level ∈ GetSupportedValues -> (Level_Set l level).1 = {| value := level |})
  /\ (level ∉ GetSupportedValues ->
      Level_Set l level
      = (l, Some (ErrMsg "supported values: [trace debug info warn error fatal]"))).
Proof.
  rewrite Level_Set_cases. case_bool_decide as Hin; cbn; naive_solver.
Qed.

Lemma Level_after_snoc (calls : list string) (level : string) :
  Level_after (calls ++ [level]) = (Level_Set (Level_after calls) level).1.
Proof. unfold Level_after. by rewrite fold_left_app. Qed.

Lemma Level_after_value (calls : list string) :
  value (Level_after calls)
  = default "" (last (filter (fun level => level ∈ GetSupportedValues) calls)).
Proof.
  induction calls as [| level calls IH] using rev_ind; [done |].
  rewrite Level_after_snoc, Level_Set_cases, filter_app.
  case_bool_decide as Hin.
  - rewrite filter_cons_True by done. rewrite filter_nil, last_snoc. done.
  - rewrite filter_cons_False by done. by rewrite filter_nil, app_nil_r.
Qed.

Lemma supported_not_empty (level : string) : level ∈ GetSupportedValues -> level <> "".
Proof. intros Hin ->. unfold GetSupportedValues in Hin. set_solver. Qed.

Lemma Level_String_after (calls : list string) :
  Level_String (Level_after calls)
  = default "info" (last (filter (fun level => level ∈ GetSupportedValues) calls))
  /\ Level_String (Level_after calls) ∈ GetSupportedValues.
Proof.
  unfold Level_String. rewrite Level_after_value.
  destruct (last (filter (fun level => level ∈ GetSupportedValues) calls))
    as [level |] eqn:Hlast; cbn.
  - assert (Hin : level ∈ GetSupportedValues).
    { apply last_Some_elem_of in Hlast. by apply list_elem_of_filter in Hlast as [? _]. }
    rewrite bool_decide_false by (by apply supported_not_empty). done.
  - split; [done |]. unfold GetSupportedValues. set_solver.
Qed.

(** X17: after any series of calls of [Set] on a new flag, [String]
    returns the last value of the series that is supported, and "info" when
    there is none: it always returns one of the six supported values, and
    never the empty string. *)
Theorem X17_level_string_after_sets (calls : list string) :
  Level_String (Level_after calls)
  = default "info" (last (filter (fun level => level ∈ GetSupportedValues) calls))
  /\ Level_String (Level_after calls) ∈ GetSupportedValues.
Proof. apply Level_String_after. Qed.

(** X18: after any series of calls of [Set], [SetZeroLogLevel] never falls
    back on its error branch: the value of the flag always parses, whatever
    zerolog makes of other strings, and the global level becomes one of
    trace, debug, info, warn, error and fatal; the flag cannot switch the
    log off. *)
Theorem X18_zerolog_level_after_sets (other : string -> zerolog.Level + error)
    (calls : list string) :
  zerolog.ParseLevel other (Level_String (Level_after calls))
  = inl (Level_SetZeroLogLevel other (Level_after calls))
  /\ Level_SetZeroLogLevel other (Level_after calls)
     ∈ [zerolog.TraceLevel; zerolog.DebugLevel; zerolog.InfoLevel; zerolog.WarnLevel;
        zerolog.ErrorLevel; zerolog.FatalLevel]
  /\ (forall other', Level_SetZeroLogLevel other' (Level_after calls)
                     = Level_SetZeroLogLevel other (Level_after calls)).
Proof.
  destruct (Level_String_after calls) as [_ Hin].
  unfold Level_SetZeroLogLevel.
  unfold GetSupportedValues in Hin.
  repeat (apply elem_of_cons in Hin as [-> | Hin];
          [split_and!; [reflexivity | cbn; set_solver | reflexivity] |]).
  by apply elem_of_nil in Hin.
Qed.

(** X19: the names of [NewSlogger] and of [ReplaceAttr] agree: when
    [NewSlogger] accepts a name, the minimum level of its handler is shown
    under that very name in the output. *)
Theorem X19_slog_level_round_trip (quote : string -> string) (name : string)
    (h : JSONHandler) :
  NewSlogger quote name = Returned h ->
  shown (opt_Level h) = StringValue name.
Proof.
  unfold NewSlogger.
  repeat (case_bool_decide; [subst name; by intros [= <-] |]).
  done.
Qed.

Lemma X19_witness : shown (opt_Level {| opt_Level := LevelWarn |}) = StringValue "warning".
Proof.
  apply (X19_slog_level_round_trip (fun s => s) "warning" {| opt_Level := LevelWarn |}).
  reflexivity.
Defined.

(** X20: [ReplaceAttr] shows every level, also one between or beyond the
    six named levels, under a name that [NewSlogger] accepts, and it
    respects the order of the levels: the level named for a lower level is
    not above the level named for a higher one. *)
Theorem X20_slog_levels_are_shown_in_order (quote : string -> string) (z1 z2 : Z) :
  z1 <= z2 ->
  exists n1 n2 h1 h2,
    shown z1 = StringValue n1 /\ shown z2 = StringValue n2
    /\ NewSlogger quote n1 = Returned h1 /\ NewSlogger quote n2 = Returned h2
    /\ opt_Level h1 <= opt_Level h2.
Proof.
  intros Hle. unfold shown, ReplaceAttr.
  cbn [Key Value_]. change (bool_decide (slog_LevelKey = slog_LevelKey)) with true.
  cbn [Key Value_]. change (bool_decide (slog_LevelKey = slog_MessageKey)) with false.
  cbn [Key Value_].
  unfold LevelDebug, LevelInfo, LevelWarn, LevelError, LevelFatal.
  repeat case_bool_decide; try lia;
    eexists _, _, _, _; (split_and!; [reflexivity | reflexivity | reflexivity
                                     | reflexivity | done]).
Qed.

Lemma X20_witness :
  exists n1 n2 h1 h2,
    shown 1 = StringValue n1 /\ shown 12 = StringValue n2
    /\ NewSlogger (fun s => s) n1 = Returned h1 /\ NewSlogger (fun s => s) n2 = Returned h2
    /\ opt_Level h1 <= opt_Level h2.
Proof. apply (X20_slog_levels_are_shown_in_order (fun s => s) 1 12). lia. Defined.

(** X21: [Set] and [NewSlogger] do not accept the same names: both accept
    trace, debug, info, error and fatal and nothing else in common. [Set]
    accepts "warn", on which [NewSlogger] panics; [NewSlogger] accepts
    "warning", which [Set] refuses. *)
Theorem X21_level_names_differ (quote : string -> string) (l : Level) (name : string) :
  ((Level_Set l name).2 = None /\ (exists h, NewSlogger quote name = Returned h)
   <-> name ∈ ["trace"; "debug"; "info"; "error"; "fatal"])
  /\ (Level_Set l "warn").2 = None
  /\ (exists msg, NewSlogger quote "warn" = Panicked msg)
  /\ is_Some (Level_Set l "warning").2
  /\ NewSlogger quote "warning" = Returned {| opt_Level := LevelWarn |}.
Proof.
  split_and!; [| done | by eexists | by eexists | done].
  rewrite Level_Set_cases. split.
  - intros [Hset [h Hnew]]. case_bool_decide as Hin; [| done].
    unfold GetSupportedValues in Hin.
    repeat (apply elem_of_cons in Hin as [-> | Hin]; [first [set_solver | done] |]).
    by apply elem_of_nil in Hin.
  - intros Hin.
    repeat (apply elem_of_cons in Hin as [-> | Hin]; [split; [done | by eexists] |]).
    by apply elem_of_nil in Hin.
Qed.

End log_properties.

(** * Properties of [NewScanner] *)

(** X22: [NewScanner] fails in three cases only: a CA file is named and
    cannot be read, a CA file is named and holds no certificate, or the
    default transport is not an [*http.Transport]. The CA file is read
    whenever it is named, also when [insecureClient] is set: the flag does
    not make a bad CA file harmless. *)
Theorem X22_new_scanner_errors {P K S : Type} (X : Machine) (policiesClient : P)
    (k8sClient : K) (policyReportStore : S) (outputScan insecureClient : bool)
    (caCertFile : string) :
  let res := NewScanner X policiesClient k8sClient policyReportStore outputScan
               insecureClient caCertFile in
  exists r, outcome res = Returned r
  /\ ((exists err, r = inr err) <->
      (caCertFile <> ""
       /\ ((exists err, os_ReadFile X caCertFile = inr err)
           \/ (exists certs, os_ReadFile X caCertFile = inl certs
                             /\ pem_certificates X certs = [])))
      \/ DefaultTransport_is_Transport X = false)
  /\ (forall err, r = inr err ->
      outcome (NewScanner X policiesClient k8sClient policyReportStore outputScan
                 (negb insecureClient) caCertFile) = Returned (inr err)).
Proof.
  cbn zeta. unfold NewScanner, AppendCertsFromPEM.
  case_bool_decide as Hfile.
  - destruct (os_ReadFile X caCertFile) as [certs | err] eqn:Hread.
    + case_bool_decide as Hcerts; cbn [negb].
      * eexists. split; [reflexivity |]. split; [| by intros ? [= <-]].
        split; [intros _; left; eauto 10 | eauto].
      * destruct (DefaultTransport_is_Transport X) eqn:Ht; cbn [negb].
        -- destruct insecureClient; cbn; eexists; (split; [reflexivity |]);
             (split; [| done]);
             (split; [by intros [? ?] |]);
             intros [(_ & [[? ?] | (? & ? & ?)]) | ?]; congruence.
        -- eexists. split; [reflexivity |]. split; [| by intros ? [= <-]].
           split; [intros _; by right | eauto].
    + eexists. split; [reflexivity |]. split; [| by intros ? [= <-]].
      split; [intros _; left; eauto 10 | eauto].
  - subst caCertFile.
    destruct (DefaultTransport_is_Transport X) eqn:Ht; cbn [negb].
    + destruct insecureClient; cbn; eexists; (split; [reflexivity |]);
        (split; [| done]);
        (split; [by intros [? ?] |]);
        intros [(? & _) | ?]; congruence.
    + eexists. split; [reflexivity |]. split; [| by intros ? [= <-]].
      split; [intros _; by right | eauto].
Qed.

(** X23: the scanner that [NewScanner] returns has an HTTP client with a
    timeout of ten seconds that requires TLS 1.2 at least; it trusts the
    system certificates, if they could be loaded, and the certificates of
    the CA file, if one is named, and nothing else; it skips the
    verification of the server exactly when [insecureClient] is set, and
    then, and only then, a warning is logged. The clients and the flag
    [outputScan] are those of the call. *)
Theorem X23_new_scanner_configuration {P K S : Type} (X : Machine) (policiesClient : P)
    (k8sClient : K) (policyReportStore : S) (outputScan insecureClient : bool)
    (caCertFile : string) (scanner : Scanner P K S) :
  let res := NewScanner X policiesClient k8sClient policyReportStore outputScan
               insecureClient caCertFile in
  outcome res = Returned (inl scanner) ->
  scanner_holds scanner policiesClient k8sClient policyReportStore outputScan
  /\ httpClient_Timeout scanner = 10 * time_Second
  /\ MinVersion (httpClient_TLSClientConfig scanner) = tls_VersionTLS12
  /\ InsecureSkipVerify (httpClient_TLSClientConfig scanner) = insecureClient
  /\ RootCAs (httpClient_TLSClientConfig scanner)
     = default [] (x509_SystemCertPool X)
       ++ (if bool_decide (caCertFile = "") then []
           else match os_ReadFile X caCertFile with
                | inl certs => pem_certificates X certs
                | inr _ => []
                end)
  /\ (EvLog WarnLevel []
        "connecting to PolicyServers endpoints without validating TLS connection"
      ∈ trace res <-> insecureClient = true).
Proof.
  cbn zeta. unfold NewScanner, AppendCertsFromPEM, scanner_holds.
  case_bool_decide as Hfile.
  - rewrite bool_decide_false by done.
    destruct (os_ReadFile X caCertFile) as [certs | err]; [| done].
    case_bool_decide as Hcerts; cbn [negb]; [done |].
    destruct (DefaultTransport_is_Transport X); cbn [negb]; [| done].
    destruct insecureClient; cbn; intros [= <-]; cbn; split_and!; try done.
    + split; [done |]. intros _. set_solver.
    + split; [| done]. intros Hin. set_solver.
  - subst caCertFile. rewrite bool_decide_true by done.
    destruct (DefaultTransport_is_Transport X); cbn [negb]; [| done].
    destruct insecureClient; cbn; intros [= <-]; cbn; rewrite ?app_nil_r;
      split_and!; try done.
    + split; [done |]. intros _. set_solver.
    + split; [| done]. intros Hin. set_solver.
Qed.

Lemma X23_witness :
  exists scanner : Scanner unit unit unit,
    scanner_holds scanner tt tt tt true
    /\ httpClient_Timeout scanner = 10 * time_Second
    /\ MinVersion (httpClient_TLSClientConfig scanner) = tls_VersionTLS12
    /\ InsecureSkipVerify (httpClient_TLSClientConfig scanner) = true
    /\ RootCAs (httpClient_TLSClientConfig scanner)
       = [MoreExamples.system_cert; MoreExamples.extra_cert]
    /\ (EvLog WarnLevel []
          "connecting to PolicyServers endpoints without validating TLS connection"
        ∈ trace (NewScanner MoreExamples.machine tt tt tt true true "/etc/ca.pem"
                 : M (Scanner unit unit unit + error)) <-> true = true).
Proof.
  eexists.
  apply (X23_new_scanner_configuration MoreExamples.machine tt tt tt true true
           "/etc/ca.pem").
  reflexivity.
Defined.

(** * Properties of the policy matcher *)

Lemma NewRequirement_inl (syn : labels.Syntax) (k : string) (op : labels.Operator)
    (vals : list string) (r : labels.Requirement) :
  labels.NewRequirement syn k op vals = inl r ->
  r = {| labels.key := k; labels.operator := op; labels.strValues := vals |}.
Proof.
  unfold labels.NewRequirement.
  destruct (labels.validateLabelKey syn k); [done |]. cbn zeta.
  destruct op; repeat case_bool_decide; try done;
    destruct (labels.validateValues syn k vals); try done; by intros [= <-].
Qed.

Lemma requirementsOfLabels_inl (syn : labels.Syntax) (kvs : list (string * string))
    (rs : list labels.Requirement) :
  requirementsOfLabels syn kvs = inl rs ->
  rs = map (fun kv => {| labels.key := kv.1; labels.operator := labels.OpEquals;
                         labels.strValues := [kv.2] |}) kvs.
Proof.
  revert rs. induction kvs as [| [k v] kvs IH]; intros rs; cbn.
  - by intros [= <-].
  - destruct (labels.NewRequirement syn k labels.OpEquals [v]) as [r | e] eqn:Hr; [| done].
    apply NewRequirement_inl in Hr as ->.
    destruct (requirementsOfLabels syn kvs) as [rs' | e]; [| done].
    intros [= <-]. by rewrite (IH rs' eq_refl).
Qed.

Lemma requirementsOfExpressions_inl (syn : labels.Syntax)
    (exprs : list LabelSelectorRequirement) (rs : list labels.Requirement) :
  requirementsOfExpressions syn exprs = inl rs ->
  Forall2 (fun expr r =>
             exists op, selectionOperator (lsr_Operator expr) = inl op
                        /\ r = {| labels.key := lsr_Key expr; labels.operator := op;
                                  labels.strValues := lsr_Values expr |}) exprs rs.
Proof.
  revert rs. induction exprs as [| expr exprs IH]; intros rs; cbn.
  - intros [= <-]. constructor.
  - destruct (selectionOperator (lsr_Operator expr)) as [op | e] eqn:Hop; [| done].
    destruct (labels.NewRequirement syn (lsr_Key expr) op (lsr_Values expr))
      as [r | e] eqn:Hr; [| done].
    apply NewRequirement_inl in Hr as ->.
    destruct (requirementsOfExpressions syn exprs) as [rs' | e]; [| done].
    intros [= <-]. constructor; [by eexists | by apply IH].
Qed.

Lemma label_requirement_matches (ls : gmap string string) (k v : string) :
  labels.RequirementMatches
    {| labels.key := k; labels.operator := labels.OpEquals; labels.strValues := [v] |} ls
  = true
  <-> ls !! k = Some v.
Proof.
  unfold labels.RequirementMatches, labels.hasValue. cbn.
  destruct (ls !! k) as [v' |]; [| done].
  rewrite bool_decide_eq_true, list_elem_of_singleton. naive_solver.
Qed.

Lemma expression_requirement_matches (ls : gmap string string)
    (expr : LabelSelectorRequirement) (op : labels.Operator) :
  selectionOperator (lsr_Operator expr) = inl op ->
  labels.RequirementMatches
    {| labels.key := lsr_Key expr; labels.operator := op;
       labels.strValues := lsr_Values expr |} ls = true
  <-> expression_holds ls expr.
Proof.
  intros Hop. unfold selectionOperator in Hop.
  unfold expression_holds, labels.RequirementMatches, labels.hasValue.
  cbn [labels.operator labels.key labels.strValues].
  repeat case_bool_decide; simplify_eq;
    match goal with H : lsr_Operator expr = _ |- _ => rewrite H end;
    destruct (ls !! lsr_Key expr) as [v |];
    rewrite ?negb_true_iff, ?bool_decide_eq_true, ?bool_decide_eq_false;
    naive_solver.
Qed.

Lemma label_requirements_match (ls ml : gmap string string) :
  forallb (fun r => labels.RequirementMatches r ls)
    (map (fun kv : string * string =>
            {| labels.key := kv.1; labels.operator := labels.OpEquals;
               labels.strValues := [kv.2] |}) (map_to_list ml)) = true
  <-> ml ⊆ ls.
Proof.
  rewrite <- Is_true_true, forallb_True, Forall_map, Forall_forall, map_subseteq_spec.
  split.
  - intros Hall k v Hk. apply elem_of_map_to_list in Hk. specialize (Hall _ Hk).
    cbn in Hall. apply Is_true_true in Hall. by apply label_requirement_matches in Hall.
  - intros Hsub [k v] Hk. apply elem_of_map_to_list in Hk. cbn.
    apply Is_true_true, label_requirement_matches. by apply Hsub.
Qed.

Lemma expression_requirements_match (ls : gmap string string)
    (exprs : list LabelSelectorRequirement) (rs : list labels.Requirement) :
  Forall2 (fun expr r =>
             exists op, selectionOperator (lsr_Operator expr) = inl op
                        /\ r = {| labels.key := lsr_Key expr; labels.operator := op;
                                  labels.strValues := lsr_Values expr |}) exprs rs ->
  forallb (fun r => labels.RequirementMatches r ls) rs = true
  <-> Forall (expression_holds ls) exprs.
Proof.
  induction 1 as [| expr r exprs rs (op & Hop & ->) _ IH]; cbn.
  - split; [constructor | done].
  - rewrite andb_true_iff, IH, Forall_cons, (expression_requirement_matches ls expr op Hop).
    done.
Qed.

(** What the selector of a policy means for [policyMatches]. *)
Lemma policy_applies_selector (E : Env) (p : policies.Policy) (sel : LabelSelector)
    (selector : labels.Selector) (resource : Unstructured) :
  policiesv1.GetObjectSelector (policies.Policy_ p) = Some sel ->
  LabelSelectorAsSelector (labelSyntax E) (Some sel) = inl selector ->
  policy_applies E resource p = true
  <-> MatchLabels sel ⊆ GetLabels resource
      /\ Forall (expression_holds (GetLabels resource)) (MatchExpressions sel).
Proof.
  intros Hsel Hcompile.
  assert (Happlies : policy_applies E resource p
                     = labels.Matches selector (GetLabels resource)).
  { unfold policy_applies, policyMatches. rewrite Hsel, Hcompile.
    by destruct (labels.Matches selector (GetLabels resource)). }
  rewrite Happlies. clear Happlies.
  unfold LabelSelectorAsSelector in Hcompile.
  case_bool_decide as Hempty.
  - injection Hcompile as <-. cbn.
    assert (MatchLabels sel = ∅) as -> by (apply map_size_empty_iff; lia).
    assert (MatchExpressions sel = []) as -> by (apply nil_length_inv; lia).
    split; [intros _ | done]. split; [apply map_empty_subseteq | constructor].
  - destruct (requirementsOfLabels _ _) as [rs1 | e] eqn:Hrs1; [| done].
    destruct (requirementsOfExpressions _ _) as [rs2 | e] eqn:Hrs2; [| done].
    injection Hcompile as <-. cbn.
    apply requirementsOfLabels_inl in Hrs1 as ->.
    apply requirementsOfExpressions_inl in Hrs2.
    rewrite forallb_app, andb_true_iff, label_requirements_match.
    by rewrite (expression_requirements_match _ _ _ Hrs2).
Qed.

(** X24: a policy whose selector compiles applies to a resource exactly
    when the labels of the resource include every label of [matchLabels]
    and every expression of [matchExpressions] holds for them. A selector
    that is set but empty applies to every resource. *)
Theorem X24_selector_meaning (E : Env) (p : policies.Policy) (sel : LabelSelector)
    (selector : labels.Selector) (resource : Unstructured) :
  policiesv1.GetObjectSelector (policies.Policy_ p) = Some sel ->
  LabelSelectorAsSelector (labelSyntax E) (Some sel) = inl selector ->
  (policy_applies E resource p = true
   <-> MatchLabels sel ⊆ GetLabels resource
       /\ Forall (expression_holds (GetLabels resource)) (MatchExpressions sel))
  /\ (MatchLabels sel = ∅ -> MatchExpressions sel = [] ->
      policyMatches E (policies.Policy_ p) resource = ([], Returned (true, None))).
Proof.
  intros Hsel Hcompile. split; [by eapply policy_applies_selector |].
  intros Hml Hme. unfold policyMatches. rewrite Hsel.
  unfold LabelSelectorAsSelector. rewrite Hml, Hme. done.
Qed.

Lemma X24_witness :
  let sel := {| MatchLabels := {[ "app" := "web" ]}; MatchExpressions := [] |} in
  (policy_applies Examples.scenarioA Examples.pod1 Examples.web_only = true
   <-> MatchLabels sel ⊆ GetLabels Examples.pod1
       /\ Forall (expression_holds (GetLabels Examples.pod1)) (MatchExpressions sel))
  /\ (MatchLabels sel = ∅ -> MatchExpressions sel = [] ->
      policyMatches Examples.scenarioA (policies.Policy_ Examples.web_only) Examples.pod1
      = ([], Returned (true, None))).
Proof.
  intros sel.
  apply (X24_selector_meaning Examples.scenarioA Examples.web_only sel
           (labels.Internal [{| labels.key := "app"; labels.operator := labels.OpEquals;
                                labels.strValues := ["web"] |}])
           Examples.pod1).
  - reflexivity.
  - vm_compute. reflexivity.
Defined.
